(** * firefly-common: the event-stream manager and the FFI parameter column

    A shallow embedding of [pkg/eventstreams] (the manager: [esManager] and
    its methods) and of the SQL scanner and valuer of [fftypes.FFIParams],
    with the properties the specification states about them.

    The manager is sequential Go code over three kinds of mutable state: the
    rows of the persistence layer, the Go objects reached through pointers
    ([*EventStreamSpec], [*eventStream]) and the registry map [esm.streams].
    All three are fields of one [World]; a method is a function from worlds to
    an outcome and a world.  Every call that leaves the manager (persistence,
    a stream's lifecycle methods, the logger) is appended to a trace, so that
    statements about order can be made. *)

From stdpp Require Import gmap strings list fin_maps.

Open Scope string_scope.
Open Scope list_scope.

(** ** Errors and outcomes *)

(** The i18n messages the code under study raises, and the failures of its
    collaborators. *)
Inductive Error : Type :=
  | MsgESConfigNotInitialized
  | MsgESStartedOrStopped
  | Msg404NoResult
  | MsgMissingRequiredField (field : string)
  | MsgInvalidValue (field : string)
  | ErrStorage (cause : string)
  | ErrStream (cause : string)
  | ErrRuntime (cause : string)
  | ErrTLS (cause : string).

#[global] Instance Error_eq_dec : EqDecision Error.
Proof. solve_decision. Defined.

(** What a Go call can do: return normally, return a non-nil [error], or
    panic.  [OutOfFuel] is the embedding's own: it marks a loop cut short by
    the fuel of its model, and is shown not to occur. *)
Inductive Outcome (A : Type) : Type :=
  | Ok (a : A)
  | Err (e : Error)
  | Panic (msg : string)
  | OutOfFuel.

Arguments Ok {A} a.
Arguments Err {A} e.
Arguments Panic {A} msg.
Arguments OutOfFuel {A}.

Definition nilDeref : string := "invalid memory address or nil pointer dereference".

(** ** The data model *)

(** [EventStreamStatus]: the statuses the manager names. *)
Inductive EventStreamStatus : Type :=
  | EventStreamStatusStarted
  | EventStreamStatusStopped
  | EventStreamStatusDeleted
  | EventStreamStatusUnknown.

#[global] Instance EventStreamStatus_eq_dec : EqDecision EventStreamStatus.
Proof. solve_decision. Defined.

(** Modelled from the spec: the transport descriptor of a spec, a WebSocket
    channel name, or an HTTP URL with an optional reference to a named TLS
    profile. *)
Inductive Transport : Type :=
  | WebSocket (channel : string)
  | Webhook (url : string) (tlsConfigName : option string).

(** Modelled from the spec: a retry policy (initial delay, factor, cap, maximum
    number of attempts). *)
Record RetryPolicy : Type := mkRetry {
  InitialDelay : Z;
  Factor : Z;
  MaxDelay : Z;
  MaxAttempts : Z
}.

Section Model.

(** The manager is generic in the configuration type [CT] of a stream. *)
Context {CT : Type}.

(** Modelled from the spec: [EventStreamSpec[CT]], whose declaration is not
    among the sources.  [ID], [Name], [Status] and [InitialSequenceID] are
    the fields the manager's methods read and write; the others are the
    attributes the data model of the specification lists.  Every Go field
    is a pointer, so every field is an [option]. *)
Record EventStreamSpec : Type := mkSpec {
  ID : option string;
  Name : option string;
  Status : option EventStreamStatus;
  InitialSequenceID : option string;
  BatchSize : option Z;
  BatchTimeout : option Z;
  RetryPolicyOf : option RetryPolicy;
  Sink : option Transport;
  Conf : option CT
}.

(** Modelled from the spec: [esSpec.GetID()], the accessor of the identity of
    a spec: the ID, or the empty string when the field is nil. *)
Definition GetID (s : EventStreamSpec) : string := default "" (ID s).

Definition setID (v : option string) (s : EventStreamSpec) : EventStreamSpec :=
  mkSpec v (Name s) (Status s) (InitialSequenceID s) (BatchSize s)
         (BatchTimeout s) (RetryPolicyOf s) (Sink s) (Conf s).

Definition setStatus (v : option EventStreamStatus) (s : EventStreamSpec) : EventStreamSpec :=
  mkSpec (ID s) (Name s) v (InitialSequenceID s) (BatchSize s)
         (BatchTimeout s) (RetryPolicyOf s) (Sink s) (Conf s).

Definition setInitialSequenceID (v : option string) (s : EventStreamSpec) : EventStreamSpec :=
  mkSpec (ID s) (Name s) (Status s) v (BatchSize s)
         (BatchTimeout s) (RetryPolicyOf s) (Sink s) (Conf s).

(** The all-nil spec, [&EventStreamSpec[CT]{}]. *)
Definition emptySpec : EventStreamSpec :=
  mkSpec None None None None None None None None None.

(** Modelled from the spec: a checkpoint, keyed by the stream ID, with the
    last sequence ID delivered. *)
Record Checkpoint : Type := mkCheckpoint {
  cpID : string;
  SequenceID : string
}.

(** Modelled from the spec: the lifecycle states of a LiveStream. *)
Inductive LiveState : Type :=
  | Created
  | Stopped
  | Starting
  | Running
  | Draining
  | Deleted.

#[global] Instance LiveState_eq_dec : EqDecision LiveState.
Proof. solve_decision. Defined.

(** A pointer is an index into the store of its type. *)
Definition ptr : Type := nat.

(** Modelled from the spec: [eventStream[CT, DT]], the in-memory object of a
    LiveStream, reduced to its spec and its lifecycle state.  [spec] is the
    pointer [es.spec] the manager reads. *)
Record eventStream : Type := mkStream {
  spec : ptr;
  state : LiveState
}.

(** [EventStreamWithStatus[CT]]: an embedded [*EventStreamSpec] and the live
    status laid over it. *)
Record EventStreamWithStatus : Type := mkWithStatus {
  ewsSpec : ptr;
  ewsStatus : EventStreamStatus
}.

(** Modelled from the spec: [ffapi.Filter] reduced to what the persistence
    model reads from it, the row condition, [Skip], [Limit] (0 for none) and
    whether a count is asked for. *)
Record Filter : Type := mkFilter {
  fCond : EventStreamSpec -> bool;
  fSkip : nat;
  fLimit : nat;
  fCount : bool
}.

(** Modelled from the spec: [ffapi.FilterResult], the count a query can
    return with its rows. *)
Record FilterResult : Type := mkFilterResult {
  TotalCount : option nat
}.

(** Modelled from the spec: [dbsql.GetOption], the one option that matters to
    [GetByID]. *)
Inductive GetOption : Type :=
  | FailIfNotFound.

(** The three log lines of the manager. *)
Inductive LogEntry : Type :=
  | LogAddingStream (name : string) (id : string) (status : EventStreamStatus)
  | LogNoInMemoryState (id : string)
  | LogFailedToStop (id : string) (e : Error).

(** Everything that leaves the manager, with its result. *)
Inductive Event : Type :=
  | EvGetMany (skip limit : nat) (res : Error + list EventStreamSpec)
  | EvGetByID (id : string) (res : Error + option EventStreamSpec)
  | EvUpsert (row : EventStreamSpec) (res : Error + bool)
  | EvUpdateSparse (partial : EventStreamSpec) (err : option Error)
  | EvDelete (id : string) (err : option Error)
  | EvDeleteCheckpoints (id : string) (err : option Error)
  | EvNewID (id : string)
  | EvInitEventStream (s : ptr) (v : EventStreamSpec) (res : Error + ptr)
  | EvSuspend (es : ptr)
  | EvSuspended (es : ptr) (err : option Error)
  | EvStart (es : ptr) (err : option Error)
  | EvEnsureActive (es : ptr)
  | EvLog (l : LogEntry).

(** ** The world *)

Record World : Type := mkWorld {
  (** rows of the [event_streams] table, in the listing order of the layer *)
  esTable : list EventStreamSpec;
  (** rows of the [checkpoints] table *)
  cpTable : list Checkpoint;
  (** the [EventStreamSpec] objects of the Go heap *)
  specObjs : list EventStreamSpec;
  (** the [eventStream] objects of the Go heap *)
  esObjs : list eventStream;
  (** [esm.streams] *)
  streams : gmap string ptr;
  (** how many IDs the runtime has handed out *)
  idsIssued : nat;
  (** the failures still to come: the head decides the next fallible call
      on a collaborator ([Some cause] makes it fail), an exhausted script
      means success *)
  faults : list (option string);
  trace : list Event
}.

Definition withTable (t : list EventStreamSpec) (w : World) : World :=
  mkWorld t (cpTable w) (specObjs w) (esObjs w) (streams w) (idsIssued w) (faults w) (trace w).
Definition withCheckpoints (c : list Checkpoint) (w : World) : World :=
  mkWorld (esTable w) c (specObjs w) (esObjs w) (streams w) (idsIssued w) (faults w) (trace w).
Definition withSpecObjs (o : list EventStreamSpec) (w : World) : World :=
  mkWorld (esTable w) (cpTable w) o (esObjs w) (streams w) (idsIssued w) (faults w) (trace w).
Definition withEsObjs (o : list eventStream) (w : World) : World :=
  mkWorld (esTable w) (cpTable w) (specObjs w) o (streams w) (idsIssued w) (faults w) (trace w).
Definition withStreams (m : gmap string ptr) (w : World) : World :=
  mkWorld (esTable w) (cpTable w) (specObjs w) (esObjs w) m (idsIssued w) (faults w) (trace w).
Definition withIdsIssued (n : nat) (w : World) : World :=
  mkWorld (esTable w) (cpTable w) (specObjs w) (esObjs w) (streams w) n (faults w) (trace w).
Definition withFaults (f : list (option string)) (w : World) : World :=
  mkWorld (esTable w) (cpTable w) (specObjs w) (esObjs w) (streams w) (idsIssued w) f (trace w).
Definition withTrace (t : list Event) (w : World) : World :=
  mkWorld (esTable w) (cpTable w) (specObjs w) (esObjs w) (streams w) (idsIssued w) (faults w) t.

(** ** The monad of manager code *)

Definition M (A : Type) : Type := World -> Outcome A * World.

Definition ret {A} (a : A) : M A := fun w => (Ok a, w).

Definition bind {A B} (m : M A) (k : A -> M B) : M B :=
  fun w =>
    match m w with
    | (Ok a, w') => k a w'
    | (Err e, w') => (Err e, w')
    | (Panic s, w') => (Panic s, w')
    | (OutOfFuel, w') => (OutOfFuel, w')
    end.

Definition fail {A} (e : Error) : M A := fun w => (Err e, w).
Definition panic {A} (msg : string) : M A := fun w => (Panic msg, w).
Definition outOfFuel {A} : M A := fun w => (OutOfFuel, w).

(** [err := f(); if err != nil { ... }] where the branch does not return
    the error: the error becomes a value. *)
Definition try {A} (m : M A) : M (Error + A) :=
  fun w =>
    match m w with
    | (Ok a, w') => (Ok (inr a), w')
    | (Err e, w') => (Ok (inl e), w')
    | (Panic s, w') => (Panic s, w')
    | (OutOfFuel, w') => (OutOfFuel, w')
    end.

Definition gets {A} (f : World -> A) : M A := fun w => (Ok (f w), w).
Definition modify (f : World -> World) : M unit := fun w => (Ok tt, f w).
Definition emit (e : Event) : M unit := modify (fun w => withTrace (trace w ++ [e]) w).

(** The next entry of the fault script. *)
Definition nextFault : M (option string) :=
  fun w =>
    match faults w with
    | [] => (Ok None, w)
    | f :: rest => (Ok f, withFaults rest w)
    end.

End Model.

Arguments EventStreamSpec : clear implicits.
Arguments World : clear implicits.
Arguments M : clear implicits.
Arguments Event : clear implicits.
Arguments Filter : clear implicits.

Notation "'let*' x ':=' m 'in' k" := (bind m (fun x => k))
  (at level 10, x pattern, m at level 100, k at level 200).
Notation "m ';;' k" := (bind m (fun _ => k))
  (at level 100, k at level 200, right associativity).

(** ** The collaborators of the manager *)

(** [Runtime[ConfigType, DataType]], the interface the application
    implements.  [NewID] is a generator: its n-th call returns [NewID n].
    [Run] is called by the stream engine, never by the manager, and is left
    out. *)
Class Runtime (CT : Type) : Type := {
  NewID : nat -> string;
  Validate : option CT -> option Error
}.

(** [for k, v := range m] over a Go map visits the entries in an order the
    language does not fix: any enumeration of the entries. *)
Class MapRange : Type := {
  range : forall {V : Type}, gmap string V -> list (string * V);
  range_perm : forall (V : Type) (m : gmap string V), range m ≡ₚ map_to_list m
}.

Section Manager.

Context {CT : Type} {RT : Runtime CT} {MR : MapRange}.

(** [fftls.Config], [*tls.Config] and [fftls.NewTLSConfig] of the TLS
    loader. *)
Context {TLSJSONConf TLSConfig : Type}.
Variable NewTLSConfig : TLSJSONConf -> Error + TLSConfig.

(** The regular expression a stream name is validated against. *)
Variable validName : string -> bool.

(** Whether [*CT] implements [DBSerializable]: the type assertion that opens
    [NewEventStreamManager]. *)
Variable isDBSerializable : bool.

Abbreviation Spec := (EventStreamSpec CT).
Abbreviation M := (M CT).

(** *** Go objects *)

(** [*p] for a pointer into one of the two stores; a pointer that names no
    object is the nil pointer. *)
Definition deref {A} (store : World CT -> list A) (p : ptr) : M A :=
  fun w =>
    match store w !! p with
    | Some a => (Ok a, w)
    | None => (Panic nilDeref, w)
    end.

(** [new(EventStreamSpec)] for each row of a result set. *)
Definition newSpecs (rows : list Spec) : M (list ptr) :=
  fun w => (Ok (seq (length (specObjs w)) (length rows)),
            withSpecObjs (specObjs w ++ rows) w).

Definition newStream (es : eventStream) : M ptr :=
  fun w => (Ok (length (esObjs w)), withEsObjs (esObjs w ++ [es]) w).

(** An assignment to fields of [*p]. *)
Definition updateSpec (p : ptr) (f : Spec -> Spec) : M unit :=
  let* s := deref specObjs p in
  modify (fun w => withSpecObjs (<[p := f s]> (specObjs w)) w).

Definition updateStream (p : ptr) (f : eventStream -> eventStream) : M unit :=
  let* e := deref esObjs p in
  modify (fun w => withEsObjs (<[p := f e]> (esObjs w)) w).

(** [esm.runtime.NewID()] *)
Definition newID : M string :=
  let* n := gets idsIssued in
  modify (withIdsIssued (S n)) ;;
  emit (EvNewID (NewID n)) ;;
  ret (NewID n).

(** *** Persistence *)

Definition hasID (id : string) (s : Spec) : bool := bool_decide (GetID s = id).

(** Modelled from the spec: the rows a query returns after [Skip] and
    [Limit]. *)
Definition page (skip limit : nat) (rows : list Spec) : list Spec :=
  match limit with
  | 0 => drop skip rows
  | _ => take limit (drop skip rows)
  end.

(** Modelled from the spec: the table after an upsert, the row with the same
    ID replaced where it stands, or the row added at the end. *)
Definition upsertRow (row : Spec) (rows : list Spec) : list Spec :=
  if existsb (hasID (GetID row)) rows
  then map (fun r => if hasID (GetID row) r then row else r) rows
  else rows ++ [row].

(** Modelled from the spec: the table without the rows of an ID. *)
Definition deleteRow (id : string) (rows : list Spec) : list Spec :=
  List.filter (fun r => negb (hasID id r)) rows.

Definition orElse {A} (new old : option A) : option A :=
  match new with
  | Some a => Some a
  | None => old
  end.

(** Modelled from the spec: a partial update writes the non-null fields of the
    partial spec. *)
Definition mergeSparse (partial row : Spec) : Spec :=
  mkSpec (ID row)
         (orElse (Name partial) (Name row))
         (orElse (Status partial) (Status row))
         (orElse (InitialSequenceID partial) (InitialSequenceID row))
         (orElse (BatchSize partial) (BatchSize row))
         (orElse (BatchTimeout partial) (BatchTimeout row))
         (orElse (RetryPolicyOf partial) (RetryPolicyOf row))
         (orElse (Sink partial) (Sink row))
         (orElse (Conf partial) (Conf row)).

(** Modelled from the spec: the table after a partial update of the rows with
    the ID of the partial spec. *)
Definition updateSparseRow (partial : Spec) (rows : list Spec) : list Spec :=
  map (fun r => if hasID (GetID partial) r then mergeSparse partial r else r) rows.

(** Modelled from the spec: the Persistence Gateway ([Persistence[CT]] and
    the CRUD collections behind [EventStreams()] and [Checkpoints()]), which
    the manager only calls.  The spec gives [listSpecs(filter, skip, limit)]
    "stably paginated under an implementation-chosen ordering": the table is
    a list in that order and a query reads the rows of the table as it is
    when the query runs.  Every operation can fail with a storage error that
    carries its cause, in which case it changes nothing. *)
Definition GetMany (f : Filter CT) : M (list ptr * FilterResult) :=
  let* flt := nextFault in
  match flt with
  | Some cause =>
      emit (EvGetMany (fSkip f) (fLimit f) (inl (ErrStorage cause))) ;;
      fail (ErrStorage cause)
  | None =>
      let* rows := gets (fun w => List.filter (fCond f) (esTable w)) in
      emit (EvGetMany (fSkip f) (fLimit f) (inr (page (fSkip f) (fLimit f) rows))) ;;
      let* ps := newSpecs (page (fSkip f) (fLimit f) rows) in
      ret (ps, mkFilterResult (if fCount f then Some (length rows) else None))
  end.

(** Modelled from the spec: [getSpec(id)].  The spec leaves the result for
    an absent row open; both results the Go signature allows are kept: the
    not-found error when the caller's options ask for it, a nil spec with a
    nil error otherwise. *)
Definition GetByID (id : string) (opts : list GetOption) : M (option ptr) :=
  let* flt := nextFault in
  match flt with
  | Some cause =>
      emit (EvGetByID id (inl (ErrStorage cause))) ;;
      fail (ErrStorage cause)
  | None =>
      let* found := gets (fun w => List.find (hasID id) (esTable w)) in
      match found with
      | Some row =>
          emit (EvGetByID id (inr (Some row))) ;;
          let* ps := newSpecs [row] in
          ret (head ps)
      | None =>
          match opts with
          | FailIfNotFound :: _ =>
              emit (EvGetByID id (inl Msg404NoResult)) ;;
              fail Msg404NoResult
          | [] =>
              emit (EvGetByID id (inr None)) ;;
              ret None
          end
      end
  end.

(** Modelled from the spec: [upsertSpec(spec, optimization) -> isNew],
    atomic: the row with the spec's ID is replaced where it stands, or a new
    row is added. *)
Definition Upsert (esSpec : ptr) : M bool :=
  let* row := deref specObjs esSpec in
  let* flt := nextFault in
  match flt with
  | Some cause =>
      emit (EvUpsert row (inl (ErrStorage cause))) ;;
      fail (ErrStorage cause)
  | None =>
      let* isNew := gets (fun w => negb (existsb (hasID (GetID row)) (esTable w))) in
      emit (EvUpsert row (inr isNew)) ;;
      modify (fun w => withTable (upsertRow row (esTable w)) w) ;;
      ret isNew
  end.

(** Modelled from the spec: [updateSparse(partialSpec)], "partial updates
    touch only non-null fields of the partial spec".  The partial spec of the
    one caller is a literal that nothing else refers to, so it is passed by
    value. *)
Definition UpdateSparse (partial : Spec) : M unit :=
  let* flt := nextFault in
  match flt with
  | Some cause =>
      emit (EvUpdateSparse partial (Some (ErrStorage cause))) ;;
      fail (ErrStorage cause)
  | None =>
      emit (EvUpdateSparse partial None) ;;
      modify (fun w => withTable (updateSparseRow partial (esTable w)) w)
  end.

(** Modelled from the spec: [deleteSpec(id)]. *)
Definition Delete (id : string) : M unit :=
  let* flt := nextFault in
  match flt with
  | Some cause =>
      emit (EvDelete id (Some (ErrStorage cause))) ;;
      fail (ErrStorage cause)
  | None =>
      emit (EvDelete id None) ;;
      modify (fun w => withTable (deleteRow id (esTable w)) w)
  end.

(** Modelled from the spec: [deleteCheckpointsWhere(streamID)], the call
    [Checkpoints().DeleteMany] with the filter [Eq("id", id)]. *)
Definition DeleteCheckpoints (id : string) : M unit :=
  let* flt := nextFault in
  match flt with
  | Some cause =>
      emit (EvDeleteCheckpoints id (Some (ErrStorage cause))) ;;
      fail (ErrStorage cause)
  | None =>
      emit (EvDeleteCheckpoints id None) ;;
      modify (fun w => withCheckpoints
                         (List.filter (fun c => negb (bool_decide (cpID c = id))) (cpTable w)) w)
  end.

(** *** The stream engine *)

(** Modelled from the spec: the live status that [es.Status(ctx)] lays over
    the spec, by lifecycle state. *)
Definition statusOf (st : LiveState) : EventStreamStatus :=
  match st with
  | Starting | Running => EventStreamStatusStarted
  | Created | Stopped | Draining => EventStreamStatusStopped
  | Deleted => EventStreamStatusDeleted
  end.

(** Modelled from the spec: the *start* transition, Created or Stopped to
    Starting. *)
Definition activate (e : eventStream) : eventStream :=
  match state e with
  | Created | Stopped => mkStream (spec e) Starting
  | _ => e
  end.

(** Modelled from the spec: the *suspend* transition, through Draining to
    Stopped once both tasks have exited. *)
Definition quiesce (e : eventStream) : eventStream :=
  match state e with
  | Starting | Running | Draining => mkStream (spec e) Stopped
  | _ => e
  end.

(** Modelled from the spec: [es.Status(ctx)] of the stream engine, "overlay
    the in-memory live status onto the persisted spec": the stream's own
    spec pointer with the status of its lifecycle state. *)
Definition liveStatus (es : ptr) : M EventStreamWithStatus :=
  let* e := deref esObjs es in
  ret (mkWithStatus (spec e) (statusOf (state e))).

(** Modelled from the spec: [esm.initEventStream] of the stream engine,
    which builds the LiveStream of a spec, "honouring [its] persisted
    status": the stream is Created, and activated when the status of the
    spec is started.  It can fail. *)
Definition initEventStream (esSpec : ptr) : M ptr :=
  let* s := deref specObjs esSpec in
  let* flt := nextFault in
  match flt with
  | Some cause =>
      emit (EvInitEventStream esSpec s (inl (ErrStream cause))) ;;
      fail (ErrStream cause)
  | None =>
      let* es := newStream
                   (if bool_decide (Status s = Some EventStreamStatusStarted)
                    then activate (mkStream esSpec Created)
                    else mkStream esSpec Created) in
      emit (EvInitEventStream esSpec s (inr es)) ;;
      ret es
  end.

(** Modelled from the spec: [es.ensureActive()], the effect of the *start*
    transition (Created|Stopped to Starting) without its guard. *)
Definition ensureActive (es : ptr) : M unit :=
  emit (EvEnsureActive es) ;;
  updateStream es activate.

(** Modelled from the spec: [es.suspend(ctx)], the internal stop: the tasks
    are told to exit and the call waits for them (Draining, then Stopped).
    The call is logged when made and when it returns. *)
Definition suspend (es : ptr) : M unit :=
  emit (EvSuspend es) ;;
  let* flt := nextFault in
  match flt with
  | Some cause =>
      emit (EvSuspended es (Some (ErrStream cause))) ;;
      fail (ErrStream cause)
  | None =>
      updateStream es quiesce ;;
      emit (EvSuspended es None)
  end.

(** Modelled from the spec: [es.start(ctx)], the *start* transition with its
    guard (Created|Stopped); from another state it is a conflict. *)
Definition start (es : ptr) : M unit :=
  let* e := deref esObjs es in
  let* flt := nextFault in
  match flt with
  | Some cause =>
      emit (EvStart es (Some (ErrStream cause))) ;;
      fail (ErrStream cause)
  | None =>
      match state e with
      | Created | Stopped =>
          emit (EvStart es None) ;;
          updateStream es activate
      | _ =>
          emit (EvStart es (Some (ErrStream "conflict"))) ;;
          fail (ErrStream "conflict")
      end
  end.

(** Modelled from the spec: [es.stop(ctx)], the *stop* transition: "[suspend]
    is the internal form used during reconfiguration; [stop] additionally
    persists stopped status".  The stream is suspended, then the status
    stopped is written to its spec and, by a sparse update, to its row. *)
Definition stop (es : ptr) : M unit :=
  suspend es ;;
  let* e := deref esObjs es in
  let* s := deref specObjs (spec e) in
  updateSpec (spec e) (setStatus (Some EventStreamStatusStopped)) ;;
  UpdateSparse (setStatus (Some EventStreamStatusStopped) (setID (Some (GetID s)) emptySpec)).

(** Modelled from the spec: [es.delete(ctx)], the *delete* transition:
    "Draining+Stopped, mark status deleted"; "a Checkpoint is [...] destroyed
    on reset or stream delete".  The stream is suspended, the status deleted
    is written to its spec and, by a sparse update, to its row (the rows that
    startup purges), its checkpoint is removed and the stream is in its
    terminal state.  Removing the row and the registry entry is left to the
    manager. *)
Definition delete_ (es : ptr) : M unit :=
  suspend es ;;
  let* e := deref esObjs es in
  let* s := deref specObjs (spec e) in
  updateSpec (spec e) (setStatus (Some EventStreamStatusDeleted)) ;;
  UpdateSparse (setStatus (Some EventStreamStatusDeleted) (setID (Some (GetID s)) emptySpec)) ;;
  DeleteCheckpoints (GetID s) ;;
  updateStream es (fun e' => mkStream (spec e') Deleted).

(** *** Configuration and validation *)

(** Modelled from the spec: the live defaults of the batch policy. *)
Record ConfigDefaults : Type := mkDefaults {
  DefaultBatchSize : Z;
  DefaultBatchTimeout : Z
}.

(** [Config]: the fields the constructor reads ([Retry], [TLSConfigs]), and
    the live defaults. *)
Record Config : Type := mkConfig {
  Retry : option RetryPolicy;
  TLSConfigs : gmap string TLSJSONConf;
  Defaults : ConfigDefaults
}.

(** [esManager[CT, DT]] without its mutable part: the registry [streams] is
    a field of the world, [persistence] is the world's tables and [runtime]
    the [Runtime] instance. *)
Record esManager : Type := mkManager {
  config : Config;
  tlsConfigs : gmap string TLSConfig
}.

(** Modelled from the spec: "retry parameters non-negative". *)
Definition retryOK (r : RetryPolicy) : bool :=
  (0 <=? InitialDelay r)%Z && (0 <=? Factor r)%Z &&
  (0 <=? MaxDelay r)%Z && (0 <=? MaxAttempts r)%Z.

(** Modelled from the spec: the transport descriptor is well formed and the
    TLS profile it refers to exists. *)
Definition sinkOK (esm : esManager) (t : Transport) : bool :=
  match t with
  | WebSocket channel => negb (bool_decide (channel = ""))
  | Webhook url None => negb (bool_decide (url = ""))
  | Webhook url (Some name) =>
      negb (bool_decide (url = "")) && bool_decide (is_Some (tlsConfigs esm !! name))
  end.

(** Modelled from the spec: the value a defaultable field is validated at, and
    the field afterwards; a missing value stands at the live default, which
    is written into the field only when defaults are applied. *)
Definition checkSet {A} (setDefaults : bool) (field : option A) (def : A) : option A * A :=
  match field with
  | Some v => (Some v, v)
  | None => (if setDefaults then Some def else None, def)
  end.

(** Modelled from the spec: [esm.validateStream(ctx, spec, setDefaults)],
    which "enforces name format, status enum, numeric ranges, transport
    descriptor well-formedness, referenced TLS profile exists, and calls into
    the Source Runtime's Validate for the typed config.  When applyDefaults
    is false, missing values are treated as present-at-live-default but not
    written back to the spec." *)
Definition validateStream (esm : esManager) (esSpec : ptr) (setDefaults : bool) : M unit :=
  let* s := deref specObjs esSpec in
  match Name s with
  | None => fail (MsgMissingRequiredField "name")
  | Some name =>
      if negb (validName name) then fail (MsgInvalidValue "name") else
      let st := checkSet setDefaults (Status s) EventStreamStatusStarted in
      if bool_decide (st.2 = EventStreamStatusUnknown) then fail (MsgInvalidValue "status") else
      let bs := checkSet setDefaults (BatchSize s) (DefaultBatchSize (Defaults (config esm))) in
      if (bs.2 <? 1)%Z then fail (MsgInvalidValue "batchSize") else
      let bt := checkSet setDefaults (BatchTimeout s) (DefaultBatchTimeout (Defaults (config esm))) in
      if (bt.2 <=? 0)%Z then fail (MsgInvalidValue "batchTimeout") else
      if negb (from_option retryOK true (RetryPolicyOf s)) then fail (MsgInvalidValue "retry") else
      match Sink s with
      | None => fail (MsgMissingRequiredField "type")
      | Some t =>
          if negb (sinkOK esm t) then fail (MsgInvalidValue "type") else
          match Validate (Conf s) with
          | Some e => fail e
          | None =>
              if setDefaults
              then updateSpec esSpec (fun s' =>
                     mkSpec (ID s') (Name s') st.1 (InitialSequenceID s') bs.1 bt.1
                            (RetryPolicyOf s') (Sink s') (Conf s'))
              else ret tt
          end
      end
  end.

(** ** The manager *)

(** [addStream]: the log line reads [*es.spec.Name], [es.spec.GetID()] and
    [es.Status(ctx).Status], then the registry entry is written. *)
Definition addStream (es : ptr) : M unit :=
  let* e := deref esObjs es in
  let* s := deref specObjs (spec e) in
  match Name s with
  | None => panic nilDeref
  | Some name =>
      let* st := liveStatus es in
      emit (EvLog (LogAddingStream name (GetID s) (ewsStatus st))) ;;
      modify (fun w => withStreams (<[GetID s := es]> (streams w)) w)
  end.

Definition getStream (id : string) : M (option ptr) :=
  gets (fun w => streams w !! id).

Definition removeStream (id : string) : M unit :=
  modify (fun w => withStreams (delete id (streams w)) w).

Definition pageSize : nat := 25.

(** The inner loop of [initialize], over the specs of one page. *)
Fixpoint initializePage (page : list ptr) : M unit :=
  match page with
  | [] => ret tt
  | esSpec :: rest =>
      let* s := deref specObjs esSpec in
      match Status s with
      | None => panic nilDeref
      | Some st =>
          (if bool_decide (st = EventStreamStatusDeleted)
           then Delete (GetID s)
           else let* es := initEventStream esSpec in
                addStream es) ;;
          initializePage rest
      end
  end.

(** The outer loop of [initialize].  [skip] is a [uint64]; a table has fewer
    than 2^64 rows, so [skip += pageSize] does not wrap.  The loop has no
    bound in the source: the model runs it on fuel. *)
Fixpoint initializeFrom (fuel : nat) (skip : nat) : M unit :=
  match fuel with
  | 0 => outOfFuel
  | S fuel' =>
      let* res := GetMany (mkFilter (fun _ => true) skip pageSize false) in
      match res.1 with
      | [] => ret tt
      | _ :: _ =>
          initializePage res.1 ;;
          initializeFrom fuel' (skip + pageSize)
      end
  end.

(** [initialize], with fuel for one more page than the table can fill. *)
Definition initialize : M unit :=
  let* n := gets (fun w => length (esTable w)) in
  initializeFrom (S n) 0.

Definition reInit (esSpec : ptr) (existing : option ptr) : M unit :=
  match existing with
  | Some ex => suspend ex
  | None => ret tt
  end ;;
  let* es := initEventStream esSpec in
  addStream es ;;
  let* e := deref esObjs es in
  let* s := deref specObjs (spec e) in
  match Status s with
  | None => panic nilDeref
  | Some st =>
      if bool_decide (st = EventStreamStatusStarted)
      then ensureActive es
      else ret tt
  end.

(** [esSpec.ID == nil || len( *esSpec.ID) == 0] *)
Definition noID (s : Spec) : bool :=
  match ID s with
  | None => true
  | Some id => bool_decide (id = "")
  end.

(** [UpsertStream].  [esSpec] points at the caller's spec, which the method
    writes to.  Go returns the pair [(isNew, err)]; with a non-nil error the
    outcome here is the error. *)
Definition UpsertStream (esm : esManager) (esSpec : ptr) : M bool :=
  let* s0 := deref specObjs esSpec in
  let* existing :=
    (if noID s0
     then let* id := newID in
          updateSpec esSpec (setID (Some id)) ;;
          ret None
     else getStream (GetID s0)) in
  let* s1 := deref specObjs esSpec in
  match Status s1 with
  | None => updateSpec esSpec (setStatus (Some EventStreamStatusStarted))
  | Some _ => ret tt
  end ;;
  let* s2 := deref specObjs esSpec in
  match Status s2 with
  | None => panic nilDeref
  | Some st =>
      if negb (bool_decide (st = EventStreamStatusStarted)) &&
         negb (bool_decide (st = EventStreamStatusStopped))
      then fail MsgESStartedOrStopped
      else
        validateStream esm esSpec false ;;
        let* isNew := Upsert esSpec in
        reInit esSpec existing ;;
        ret isNew
  end.

(** [DeleteStream]: the stream's own [delete], then the row, then the
    registry entry. *)
Definition DeleteStream (id : string) : M unit :=
  let* found := getStream id in
  match found with
  | None => fail Msg404NoResult
  | Some es =>
      delete_ es ;;
      Delete id ;;
      removeStream id
  end.

Definition StopStream (id : string) : M unit :=
  let* found := getStream id in
  match found with
  | None => fail Msg404NoResult
  | Some es => stop es
  end.

Definition ResetStream (id : string) (sequenceID : string) : M unit :=
  let* found := getStream id in
  match found with
  | None => fail Msg404NoResult
  | Some es =>
      suspend es ;;
      DeleteCheckpoints id ;;
      let* e := deref esObjs es in
      updateSpec (spec e) (setInitialSequenceID (Some sequenceID)) ;;
      UpdateSparse (setInitialSequenceID (Some sequenceID) (setID (Some id) emptySpec)) ;;
      let* s := deref specObjs (spec e) in
      match Status s with
      | None => panic nilDeref
      | Some st =>
          if bool_decide (st = EventStreamStatusStarted)
          then start es
          else ret tt
      end
  end.

Definition StartStream (id : string) : M unit :=
  let* found := getStream id in
  match found with
  | None => fail Msg404NoResult
  | Some es => start es
  end.

(** [enrichGetStream]; [esSpec] can be the nil pointer, on which
    [esSpec.GetID()] panics. *)
Definition enrichGetStream (esSpec : option ptr) : M EventStreamWithStatus :=
  match esSpec with
  | None => panic nilDeref
  | Some p =>
      let* s := deref specObjs p in
      let* found := getStream (GetID s) in
      match found with
      | Some es => liveStatus es
      | None =>
          emit (EvLog (LogNoInMemoryState (GetID s))) ;;
          ret (mkWithStatus p EventStreamStatusUnknown)
      end
  end.

Fixpoint enrichAll (results : list ptr) : M (list EventStreamWithStatus) :=
  match results with
  | [] => ret []
  | esSpec :: rest =>
      let* e := enrichGetStream (Some esSpec) in
      let* es := enrichAll rest in
      ret (e :: es)
  end.

Definition ListStreams (filter : Filter CT) : M (list EventStreamWithStatus * FilterResult) :=
  let* res := GetMany filter in
  let* enriched := enrichAll res.1 in
  ret (enriched, res.2).

Definition GetStreamByID (id : string) (opts : list GetOption) : M EventStreamWithStatus :=
  let* esSpec := GetByID id opts in
  enrichGetStream esSpec.

(** The body of the loop of [Close], for the entries still to visit. *)
Fixpoint closeStreams (entries : list (string * ptr)) : M unit :=
  match entries with
  | [] => ret tt
  | (_, es) :: rest =>
      let* r := try (suspend es) in
      match r with
      | inl err =>
          let* e := deref esObjs es in
          let* s := deref specObjs (spec e) in
          emit (EvLog (LogFailedToStop (GetID s) err))
      | inr _ => ret tt
      end ;;
      closeStreams rest
  end.

Definition Close : M unit :=
  let* m := gets streams in
  closeStreams (range m).

(** The loop of the constructor over [config.TLSConfigs]. *)
Fixpoint parseTLSConfigs (entries : list (string * TLSJSONConf))
    (acc : gmap string TLSConfig) : Error + gmap string TLSConfig :=
  match entries with
  | [] => inr acc
  | (name, tlsJSONConf) :: rest =>
      match NewTLSConfig tlsJSONConf with
      | inl err => inl err
      | inr c => parseTLSConfigs rest (<[name := c]> acc)
      end
  end.

(** [NewEventStreamManager].  [config] is the dereferenced [*Config]; the
    persistence [p] is the tables of the world the constructor runs in. *)
Definition NewEventStreamManager (cfg : Config) : M esManager :=
  if negb isDBSerializable
  then panic "Config type must be DB serializable"
  else
    match Retry cfg with
    | None => fail MsgESConfigNotInitialized
    | Some _ =>
        match parseTLSConfigs (range (TLSConfigs cfg)) ∅ with
        | inl err => fail err
        | inr tls =>
            modify (withStreams ∅) ;;
            initialize ;;
            ret (mkManager cfg tls)
        end
    end.

(** ** Notions the statements are written in *)

(** The spec as [UpsertStream] has prepared it when it validates and
    persists: a fresh ID where there was none, the status started where
    there was none. *)
Definition prepared (w : World CT) (s : Spec) : Spec :=
  setStatus (Some (default EventStreamStatusStarted (Status s)))
    (if noID s then setID (Some (NewID (idsIssued w))) s else s).

Definition isUpsert (e : Event CT) : Prop :=
  match e with
  | EvUpsert _ _ => True
  | _ => False
  end.

(** What startup does with a spec, read off the trace: a row removed, or a
    LiveStream built. *)
Inductive StartupAction : Type :=
  | RowRemoved (id : string)
  | StreamCreated (row : Spec).

Definition startupAction (e : Event CT) : option StartupAction :=
  match e with
  | EvDelete id None => Some (RowRemoved id)
  | EvInitEventStream _ row (inr _) => Some (StreamCreated row)
  | _ => None
  end.

Definition startupActions (tr : list (Event CT)) : list StartupAction :=
  omap startupAction tr.

Definition pageRead (e : Event CT) : list Spec :=
  match e with
  | EvGetMany _ _ (inr rows) => rows
  | _ => []
  end.

(** The specs startup has met, in the order the pages returned them. *)
Definition encountered (tr : list (Event CT)) : list Spec :=
  flat_map pageRead tr.

Definition actionFor (s : Spec) : StartupAction :=
  if bool_decide (Status s = Some EventStreamStatusDeleted)
  then RowRemoved (GetID s)
  else StreamCreated s.

(** Every row removal comes before every LiveStream creation. *)
Definition purgesFirst (tr : list (Event CT)) : Prop :=
  forall i j p row es id,
    tr !! i = Some (EvInitEventStream p row (inr es)) ->
    tr !! j = Some (EvDelete id None) ->
    j < i.

(** The spec has a LiveStream in the registry. *)
Definition registered (w : World CT) (s : Spec) : Prop :=
  is_Some (streams w !! GetID s).

(** The stream object behind a pointer, and its spec, exist. *)
Definition objectsValid (w : World CT) (es : ptr) : Prop :=
  is_Some (esObjs w !! es ≫= fun e => specObjs w !! spec e).

Definition registryValid (w : World CT) : Prop :=
  map_Forall (fun _ es => objectsValid w es) (streams w).

(** The trace of [Close] over the streams it visits: for each in turn the
    call of [suspend], its return and, when it failed, the warning. *)
Inductive closeTrace : list ptr -> list (Event CT) -> Prop :=
  | closeTrace_nil : closeTrace [] []
  | closeTrace_ok es rest tr :
      closeTrace rest tr ->
      closeTrace (es :: rest) (EvSuspend es :: EvSuspended es None :: tr)
  | closeTrace_err es id err rest tr :
      closeTrace rest tr ->
      closeTrace (es :: rest)
        (EvSuspend es :: EvSuspended es (Some err) :: EvLog (LogFailedToStop id err) :: tr).

(** Two suspends are in progress together: one is called while an earlier
    call has not returned. *)
Definition suspendsOverlap (tr : list (Event CT)) : Prop :=
  exists i j es es',
    i < j
    /\ tr !! i = Some (EvSuspend es)
    /\ tr !! j = Some (EvSuspend es')
    /\ forall k r, i < k -> k < j -> tr !! k <> Some (EvSuspended es r).

(** *** Relations between the world before and after *)

(** [R] holds between the world before and after, whatever the outcome. *)
Definition always {A} (R : World CT -> World CT -> Prop) (m : M A) : Prop :=
  forall w out w', m w = (out, w') -> R w w'.

(** How an outcome other than [Ok] passes through the rest of a block. *)
Definition passes {A B} (o : Outcome A) (o' : Outcome B) : Prop :=
  match o, o' with
  | Err e, Err e' => e = e'
  | Panic s, Panic s' => s = s'
  | OutOfFuel, OutOfFuel => True
  | _, _ => False
  end.

Definition keeps {A} (f : World CT -> A) : World CT -> World CT -> Prop :=
  fun w w' => f w' = f w.

Definition unchanged : World CT -> World CT -> Prop :=
  fun w w' => w' = w.

(** The events added to the trace all satisfy [P]. *)
Definition emitsOnly (P : Event CT -> Prop) : World CT -> World CT -> Prop :=
  fun w w' => exists tr, trace w' = trace w ++ tr /\ Forall P tr.

Definition tableShrinks : World CT -> World CT -> Prop :=
  fun w w' => length (esTable w') <= length (esTable w).

(** A computation that does not run out of fuel. *)
Definition returns {A} (m : M A) : Prop :=
  forall w w', m w <> (OutOfFuel, w').

(** The world after a successful call on a collaborator that logged [es]. *)
Definition afterCall (es : list (Event CT)) (w : World CT) : World CT :=
  withTrace (trace w ++ es) (withFaults (tail (faults w)) w).

(** The stream objects once the stream [existing], if there is one, has been
    suspended. *)
Definition quiesced (existing : option ptr) (objs : list eventStream) : list eventStream :=
  match existing with
  | Some ex =>
      match objs !! ex with
      | Some e => <[ex := quiesce e]> objs
      | None => objs
      end
  | None => objs
  end.

(** The lifecycle state a stream is built in for a spec of the given
    status. *)
Definition builtState (st : option EventStreamStatus) : LiveState :=
  if bool_decide (st = Some EventStreamStatusStarted) then Starting else Created.

(** A suspend that returned an error. *)
Definition isFailedSuspend (e : Event CT) : Prop :=
  match e with
  | EvSuspended _ (Some _) => True
  | _ => False
  end.

(** A sparse update that returned an error. *)
Definition isFailedUpdate (e : Event CT) : Prop :=
  match e with
  | EvUpdateSparse _ (Some _) => True
  | _ => False
  end.

(** The IDs of the rows of the spec table, in listing order. *)
Definition tableIDs (w : World CT) : list string := GetID <$> esTable w.

(** The events a call has added to the trace of [w]. *)
Definition added (w w' : World CT) : list (Event CT) :=
  drop (length (trace w)) (trace w').

End Manager.

Arguments Config : clear implicits.
Arguments esManager : clear implicits.
Arguments StartupAction : clear implicits.

(** ** [fftypes.FFIParams] as an SQL column *)

Module fftypes.

(** [FFIParam]; [JSONAny] is a string type. *)
Record FFIParam : Type := mkFFIParam {
  Name : string;
  Schema : option string
}.

(** [FFIParams], a slice of pointers: nil, or a sequence whose elements can
    be nil. *)
Definition FFIParams : Type := option (list (option FFIParam)).

(** The dynamic types a [driver.Value] handed to [Scan] can have. *)
Inductive Src : Type :=
  | SrcNil
  | SrcString (s : string)
  | SrcBytes (b : list Byte.byte)
  | SrcInt64 (n : Z)
  | SrcFloat64 (bits : Z)
  | SrcBool (b : bool)
  | SrcTime (unixNano : Z).

(** The variables of type [FFIParams] that pointers can name. *)
Definition Mem : Type := list FFIParams.

Inductive ScanError : Type :=
  | MsgTypeRestoreFailed (src : Src) (p : option ptr)
  | ErrJSON (msg : string).

(** A source that is neither nil, a string nor a byte slice. *)
Definition foreign (src : Src) : Prop :=
  match src with
  | SrcNil | SrcString _ | SrcBytes _ => False
  | _ => True
  end.

Section Column.

(** [json.Unmarshal(data, &p)]: handed the address of the local [p], it can
    write to [p] and to what [p] points at; it returns the error and both. *)
Variable Unmarshal : list Byte.byte -> option ptr -> Mem -> option ScanError * option ptr * Mem.

(** [json.Marshal(p)], returning the Go pair [(bytes, err)]. *)
Variable Marshal : FFIParams -> option (list Byte.byte) * option ScanError.

(** [func (p *FFIParams) Scan(src interface{}) error].  [p] is the method's
    own copy of the receiver pointer; the result is the error and the
    memory the caller sees afterwards. *)
Definition Scan (p : option ptr) (src : Src) (mem : Mem) : option ScanError * Mem :=
  match src with
  | SrcNil =>
      let p : option ptr := None in
      (None, mem)
  | SrcString s =>
      let r := Unmarshal (String.list_byte_of_string s) p mem in
      (r.1.1, r.2)
  | SrcBytes b =>
      let r := Unmarshal b p mem in
      (r.1.1, r.2)
  | _ => (Some (MsgTypeRestoreFailed src p), mem)
  end.

(** [func (p FFIParams) Value() (driver.Value, error)] *)
Definition Value (p : FFIParams) : option (list Byte.byte) * option ScanError :=
  let bytes := (Marshal p).1 in
  (bytes, None).

End Column.

(** A marshaller for the examples: it fails on a parameter whose schema is
    not JSON (here: the one-character text of an opening brace), as
    [JSONAny.MarshalJSON] output that does not parse makes [json.Marshal]
    fail, and returns nil bytes with the error as [json.Marshal] does. *)
Definition sampleMarshal (p : FFIParams) : option (list Byte.byte) * option ScanError :=
  match p with
  | Some (Some (mkFFIParam _ (Some "{")) :: _) => (None, Some (ErrJSON "unexpected end of JSON input"))
  | Some _ => (Some (String.list_byte_of_string "[]"), None)
  | None => (Some (String.list_byte_of_string "null"), None)
  end.

Definition sampleUnmarshal (data : list Byte.byte) (p : option ptr) (mem : Mem)
    : option ScanError * option ptr * Mem :=
  match p with
  | Some a => (None, p, <[a := Some []]> mem)
  | None => (None, p, mem)
  end.

(** [FFI] and its methods.  The receivers are pointers; the embedding is of
    the methods on a non-nil receiver. *)
Module FFI.

Section Methods.

(** [UUID] and the element types of [Methods], [Events] and [Errors], which
    the methods do not look into; the error type of the name validator. *)
Context {UUID FFIMethod FFIEvent FFIError ValidationError : Type}.

Record FFI : Type := mkFFI {
  ID : option UUID;
  Message : option UUID;
  Namespace : string;
  Name : string;
  NetworkName : string;
  Description : string;
  Version : string;
  Methods : list (option FFIMethod);
  Events : list (option FFIEvent);
  Errors : list (option FFIError);
  Published : bool
}.

(** [ValidateFFNameField(ctx, value, fieldName)] and
    [TypeNamespaceNameTopicHash(objType, ns, name)] of the package. *)
Variable ValidateFFNameField : string -> string -> option ValidationError.
Variable TypeNamespaceNameTopicHash : string -> string -> string -> string.

(** [func (f *FFI) Validate(ctx context.Context, existing bool) (err error)] *)
Definition Validate (f : FFI) (existing : bool) : option ValidationError :=
  match ValidateFFNameField (Name f) "name" with
  | Some err => Some err
  | None =>
      match ValidateFFNameField (Version f) "version" with
      | Some err => Some err
      | None =>
          if negb (bool_decide (NetworkName f = ""))
          then
            match ValidateFFNameField (NetworkName f) "networkName" with
            | Some err => Some err
            | None => None
            end
          else None
      end
  end.

(** [func (f *FFI) Topic() string] *)
Definition Topic (f : FFI) : string :=
  TypeNamespaceNameTopicHash "ffi" (Namespace f) (Name f).

(** [func (f *FFI) SetBroadcastMessage(msgID *UUID)]: the assignment
    [f.Message = msgID], as the record afterwards. *)
Definition SetBroadcastMessage (f : FFI) (msgID : option UUID) : FFI :=
  mkFFI (ID f) msgID (Namespace f) (Name f) (NetworkName f) (Description f) (Version f)
        (Methods f) (Events f) (Errors f) (Published f).

End Methods.

Arguments FFI : clear implicits.

End FFI.

(** A name validator for the examples: a name is one to sixty-four
    characters long. *)
Definition sampleValidateFFNameField (value fieldName : string) : option string :=
  if bool_decide (1 <= String.length value <= 64) then None else Some fieldName.

Definition sampleFFI : FFI.FFI unit unit unit unit :=
  FFI.mkFFI None None "ns1" "erc20" "" "a token" "v1.0.0" [] [] [] false.

End fftypes.

(** ** A sample deployment *)

(** Concrete collaborators and worlds, on which the statements below are
    exercised. *)
Module Sample.

(** Two decimal digits. *)
Definition label (n : nat) : string :=
  String (Ascii.ascii_of_nat (48 + n / 10)) (String (Ascii.ascii_of_nat (48 + n mod 10)) "").

Definition runtime : Runtime unit :=
  {| NewID n := "id-" +:+ label n; Validate _ := None |}.

Definition inOrder : MapRange :=
  {| range V m := map_to_list m; range_perm V m := reflexivity _ |}.

Definition validName (n : string) : bool := negb (bool_decide (n = "")).

Definition parseTLS (c : bool) : Error + unit :=
  if c then inr tt else inl (ErrTLS "FF00152").

Definition config : Config bool :=
  mkConfig (Some (mkRetry 250 2 30000 0)) {[ "internal" := true ]} (mkDefaults 50 500).

Definition manager : esManager bool unit :=
  mkManager config {[ "internal" := tt ]}.

Definition stream (id : string) (st : EventStreamStatus) : EventStreamSpec unit :=
  mkSpec (Some id) (Some ("stream-" +:+ id)) (Some st) None None None None
         (Some (WebSocket "ch")) None.

Definition emptyWorld : World unit := mkWorld [] [] [] [] ∅ 0 [] [].

(** A persistence layer holding [rows], before the manager starts. *)
Definition persisted (rows : list (EventStreamSpec unit)) : World unit :=
  withTable rows emptyWorld.

(** A started stream listed before a deleted one, and a third. *)
Definition liveThenPurged : World unit :=
  persisted [stream "a" EventStreamStatusStarted;
             stream "b" EventStreamStatusDeleted;
             stream "c" EventStreamStatusStopped].

(** 26 rows: a deleted one first, then 25 started ones. *)
Definition purgedThenLive : World unit :=
  persisted (stream "s00" EventStreamStatusDeleted ::
             map (fun n => stream ("s" +:+ label n) EventStreamStatusStarted) (seq 1 25)).

(** A manager with the streams a (started) and b (stopped), and a checkpoint
    for each. *)
Definition twoStreams : World unit :=
  withCheckpoints [mkCheckpoint "a" "m"; mkCheckpoint "b" "k"]
    (initialize (persisted [stream "a" EventStreamStatusStarted;
                            stream "b" EventStreamStatusStopped])).2.

(** The same, where the next call on a stream fails. *)
Definition twoStreamsFailing : World unit :=
  withFaults [Some "context deadline exceeded"] twoStreams.

(** The caller's specs of two upserts of the stream a: first stopped, then
    started; the suspend inside the second upsert is to fail. *)
Definition staleStart : World unit :=
  withFaults [None; None; None; Some "context deadline exceeded"]
    (withSpecObjs [stream "a" EventStreamStatusStopped;
                   stream "a" EventStreamStatusStarted] emptyWorld).

(** The world after both upserts: the row of a says started, the registry
    still holds the stream built from the stopped spec. *)
Definition staleWorld : World unit :=
  (UpsertStream (RT := runtime) validName manager 1
     (UpsertStream (RT := runtime) validName manager 0 staleStart).2).2.

(** A caller's spec with the status deleted. *)
Definition deletedInput : World unit :=
  withSpecObjs [stream "a" EventStreamStatusDeleted] emptyWorld.

(** A caller's spec with neither ID nor status. *)
Definition bareSpec : EventStreamSpec unit :=
  mkSpec None (Some "orders") None None None None None
         (Some (Webhook "https://sink.example/hook" (Some "internal"))) None.

Definition bareInput : World unit := withSpecObjs [bareSpec] emptyWorld.

(** A caller's spec whose ID is the empty string, with the status deleted. *)
Definition blankIDInput : World unit :=
  withSpecObjs [setID (Some "") (stream "a" EventStreamStatusDeleted)] emptyWorld.

(** The manager after the startup over [purgedThenLive]. *)
Definition afterPurge : World unit := (initialize purgedThenLive).2.

(** The caller's spec [bareSpec], with a persistence layer that is down. *)
Definition storageDown : World unit :=
  withFaults [Some "connection refused"] bareInput.

(** [staleStart] after the first of its two upserts. *)
Definition afterFirstUpsert : World unit :=
  (UpsertStream (RT := runtime) validName manager 0 staleStart).2.

(** [twoStreams], where the third call on a collaborator fails. *)
Definition thirdCallFails : World unit :=
  withFaults [None; None; Some "connection refused"] twoStreams.

(** 30 rows, all started: a table of two pages. *)
Definition thirtyLive : World unit :=
  persisted (map (fun n => stream ("s" +:+ label n) EventStreamStatusStarted) (seq 0 30)).

End Sample.

(** * Properties *)

Section ManagerFacts.

Set Default Proof Using "Type".

Context {CT : Type} {RT : Runtime CT} {MR : MapRange}.
Abbreviation Spec := (EventStreamSpec CT).
Abbreviation M := (M CT).
Abbreviation World := (World CT).
Local Abbreviation always := (always (CT := CT)).
Local Abbreviation returns := (returns (CT := CT)).
Local Abbreviation keeps := (keeps (CT := CT)).
Local Abbreviation unchanged := (unchanged (CT := CT)).
Local Abbreviation emitsOnly := (emitsOnly (CT := CT)).
Local Abbreviation tableShrinks := (tableShrinks (CT := CT)).

(** ** Rules for blocks of manager code *)

Lemma always_ret {A} (R : World -> World -> Prop) `{!Reflexive R} (a : A) : always R (ret a).
Proof. intros w out w' [= <- <-]. reflexivity. Qed.

Lemma always_bind {A B} (R : World -> World -> Prop) `{!Transitive R}
    (m : M A) (k : A -> M B) :
  always R m -> (forall a, always R (k a)) -> always R (bind m k).
Proof.
  intros Hm Hk w out w'. unfold bind.
  destruct (m w) as [[a| e | s |] w1] eqn:E; intros H.
  - etransitivity; [eapply Hm, E | eapply Hk, H].
  - injection H as <- <-. eapply Hm, E.
  - injection H as <- <-. eapply Hm, E.
  - injection H as <- <-. eapply Hm, E.
Qed.

Lemma always_try {A} (R : World -> World -> Prop) (m : M A) :
  always R m -> always R (try m).
Proof.
  intros Hm w out w'. unfold try.
  destruct (m w) as [[a| e | s |] w1] eqn:E; intros [= <- <-]; eapply Hm, E.
Qed.

Lemma always_fail {A} (R : World -> World -> Prop) `{!Reflexive R} e : always R (@fail CT A e).
Proof. intros w out w' [= <- <-]. reflexivity. Qed.
Lemma always_panic {A} (R : World -> World -> Prop) `{!Reflexive R} e : always R (@panic CT A e).
Proof. intros w out w' [= <- <-]. reflexivity. Qed.
Lemma always_gets {A} (R : World -> World -> Prop) `{!Reflexive R} (f : World -> A) : always R (gets f).
Proof. intros w out w' [= <- <-]. reflexivity. Qed.
Lemma always_deref {A} (R : World -> World -> Prop) `{!Reflexive R} (f : World -> list A) p : always R (deref f p).
Proof. intros w out w'. unfold deref. destruct (f w !! p); intros [= <- <-]; reflexivity. Qed.
Lemma always_modify (R : World -> World -> Prop) (f : World -> World) :
  (forall w, R w (f w)) -> always R (modify f).
Proof. intros Hf w out w' [= <- <-]. apply Hf. Qed.

Lemma deref_ok {A} (f : World -> list A) p a w : f w !! p = Some a -> deref f p w = (Ok a, w).
Proof. intros H. unfold deref. by rewrite H. Qed.

Lemma bind_inv {A B} (m : M A) (k : A -> M B) w out w' :
  bind m k w = (out, w') ->
  (exists a w1, m w = (Ok a, w1) /\ k a w1 = (out, w')) \/
  (exists o, m w = (o, w') /\ passes o out).
Proof.
  unfold bind. destruct (m w) as [[a | e | s |] w1]; intros H.
  - left. eauto.
  - right. injection H as <- <-. by exists (Err e).
  - right. injection H as <- <-. by exists (Panic s).
  - right. injection H as <- <-. by exists OutOfFuel.
Qed.

Lemma bind_Ok_inv {A B} (m : M A) (k : A -> M B) w b w' :
  bind m k w = (Ok b, w') ->
  exists a w1, m w = (Ok a, w1) /\ k a w1 = (Ok b, w').
Proof.
  intros H. apply bind_inv in H as [H | (o & _ & Ho)]; [done |].
  by destruct o.
Qed.

Lemma bind_ok {A B} (m : M A) (k : A -> M B) w a w1 :
  m w = (Ok a, w1) -> bind m k w = k a w1.
Proof. intros H. unfold bind. by rewrite H. Qed.

#[local] Instance keeps_refl {A} (f : World -> A) : Reflexive (keeps f).
Proof. by intros w. Qed.
#[local] Instance keeps_trans {A} (f : World -> A) : Transitive (keeps f).
Proof. unfold keeps. intros w1 w2 w3 H1 H2. congruence. Qed.

#[local] Instance unchanged_refl : Reflexive unchanged.
Proof. by intros w. Qed.
#[local] Instance unchanged_trans : Transitive unchanged.
Proof. unfold unchanged. intros w1 w2 w3 H1 H2. congruence. Qed.

#[local] Instance emitsOnly_refl (P : Event CT -> Prop) : Reflexive (emitsOnly P).
Proof. intros w. exists []. by rewrite app_nil_r. Qed.
#[local] Instance emitsOnly_trans (P : Event CT -> Prop) : Transitive (emitsOnly P).
Proof.
  intros w1 w2 w3 (t1 & E1 & F1) (t2 & E2 & F2). exists (t1 ++ t2).
  split; [by rewrite E2, E1, app_assoc | by apply Forall_app].
Qed.

Lemma always_emit_keeps {A} (f : World -> A) e :
  (forall w t, f (withTrace t w) = f w) -> always (keeps f) (emit e).
Proof. intros Hf. apply always_modify. intros w. apply Hf. Qed.

Lemma always_emit_only (P : Event CT -> Prop) e : P e -> always (emitsOnly P) (emit e).
Proof. intros He. apply always_modify. intros w. exists [e]. split; [done | by constructor]. Qed.

Lemma always_modify_only (P : Event CT -> Prop) (f : World -> World) :
  (forall w, trace (f w) = trace w) -> always (emitsOnly P) (modify f).
Proof. intros Hf. apply always_modify. intros w. exists []. by rewrite Hf, app_nil_r. Qed.

Lemma always_nextFault_keeps {A} (f : World -> A) :
  (forall w t, f (withFaults t w) = f w) -> always (keeps f) nextFault.
Proof.
  intros Hf w out w'. unfold nextFault. destruct (faults w); intros [= <- <-]; [done | apply Hf].
Qed.

Lemma always_nextFault (R : World -> World -> Prop) `{!Reflexive R} :
  (forall w f, R w (withFaults f w)) -> always R nextFault.
Proof.
  intros Hf w out w'. unfold nextFault. destruct (faults w); intros [= <- <-]; [done | apply Hf].
Qed.

Lemma always_nextFault_only (P : Event CT -> Prop) : always (emitsOnly P) nextFault.
Proof.
  intros w out w'. unfold nextFault. destruct (faults w); intros [= <- <-]; exists [];
    by rewrite app_nil_r.
Qed.

(** [frame] proves that a block keeps a relation between the world before and
    after, from the same fact about the calls it is made of; the facts
    about calls on collaborators are hints. *)
Create HintDb frame.

Ltac frame_side :=
  solve [ intros; unfold tableShrinks; cbn; first [ lia | apply List.filter_length_le ] ].

Ltac frame :=
  repeat first
    [ solve [ auto 1 with frame nocore ]
    | match goal with
      | |- Reflexive _ => typeclasses eauto
      | |- Transitive _ => typeclasses eauto
      end
    | apply always_ret
    | apply always_fail
    | apply always_panic
    | apply always_gets
    | apply always_deref
    | apply always_try
    | apply always_nextFault_only
    | apply always_nextFault_keeps; done
    | apply always_emit_keeps; done
    | apply always_emit_only; solve [ done | cbn; tauto ]
    | apply always_modify_only; done
    | apply always_modify; done
    | apply always_nextFault; [ typeclasses eauto | frame_side ]
    | apply always_modify; frame_side
    | apply always_bind; [ typeclasses eauto .. | | intros ? ]
    | match goal with
      | |- always _ (match ?x with _ => _ end) => destruct x
      end
    | solve [ unfold always; intros ? ? ? [= <- <-]; done ]
    | solve [ unfold always; intros ? ? ? [= <- <-]; frame_side ]
    | solve [ unfold always; intros ? ? ? [= <- <-]; exists []; by rewrite app_nil_r ] ].

#[local] Arguments reInit : simpl never.
#[local] Arguments validateStream : simpl never.
#[local] Arguments Upsert : simpl never.
#[local] Arguments suspend : simpl never.
#[local] Arguments start : simpl never.
#[local] Arguments initEventStream : simpl never.
#[local] Arguments addStream : simpl never.
#[local] Arguments ensureActive : simpl never.
#[local] Arguments enrichGetStream : simpl never.
#[local] Arguments liveStatus : simpl never.
#[local] Arguments GetMany : simpl never.
#[local] Arguments GetByID : simpl never.
#[local] Arguments Delete : simpl never.
#[local] Arguments DeleteCheckpoints : simpl never.
#[local] Arguments UpdateSparse : simpl never.
#[local] Arguments updateSparseRow : simpl never.
#[local] Arguments deleteRow : simpl never.
#[local] Arguments upsertRow : simpl never.
#[local] Arguments activate : simpl never.
#[local] Arguments quiesce : simpl never.
#[local] Arguments page : simpl never.
#[local] Arguments pageSize : simpl never.

(** [mrun] runs a block on the world at hand as far as the world is known. *)
Ltac mrun :=
  repeat (progress (unfold bind, ret, fail, panic, gets, modify, emit, newID, updateSpec,
            updateStream, getStream, nextFault, deref,
            withTable, withCheckpoints, withSpecObjs, withEsObjs, withStreams,
            withIdsIssued, withFaults, withTrace; cbn)).

(** ** What the calls leave alone *)

Lemma suspend_keeps_specObjs es : always (keeps specObjs) (suspend es).
Proof. unfold suspend, updateStream. frame. Qed.

Lemma initEventStream_keeps_specObjs p : always (keeps specObjs) (initEventStream p).
Proof. unfold initEventStream, newStream. frame. Qed.

Lemma addStream_keeps_specObjs p : always (keeps specObjs) (addStream p).
Proof. unfold addStream, liveStatus. frame. Qed.

Lemma ensureActive_keeps_specObjs p : always (keeps specObjs) (ensureActive p).
Proof. unfold ensureActive, updateStream. frame. Qed.

Lemma Upsert_keeps_specObjs p : always (keeps specObjs) (Upsert p).
Proof. unfold Upsert. frame. Qed.

#[local] Hint Resolve suspend_keeps_specObjs
  initEventStream_keeps_specObjs addStream_keeps_specObjs
  ensureActive_keeps_specObjs Upsert_keeps_specObjs : frame.

Lemma reInit_keeps_specObjs p ex : always (keeps specObjs) (reInit p ex).
Proof. unfold reInit. frame. Qed.

#[local] Hint Resolve reInit_keeps_specObjs : frame.

Lemma setStatus_same (s : Spec) st : Status s = Some st -> setStatus (Some st) s = s.
Proof. destruct s; cbn; by intros ->. Qed.

Lemma updateStream_emits P es f : always (emitsOnly P) (updateStream es f).
Proof. unfold updateStream. frame. Qed.

Lemma suspend_no_upsert es : always (emitsOnly (fun e => ~ isUpsert e)) (suspend es).
Proof. unfold suspend. frame. Qed.

Lemma initEventStream_no_upsert p : always (emitsOnly (fun e => ~ isUpsert e)) (initEventStream p).
Proof. unfold initEventStream, newStream. frame. Qed.

Lemma addStream_no_upsert p : always (emitsOnly (fun e => ~ isUpsert e)) (addStream p).
Proof. unfold addStream, liveStatus. frame. Qed.

Lemma ensureActive_no_upsert p : always (emitsOnly (fun e => ~ isUpsert e)) (ensureActive p).
Proof. unfold ensureActive. frame. Qed.

#[local] Hint Resolve suspend_no_upsert initEventStream_no_upsert
  addStream_no_upsert ensureActive_no_upsert : frame.

Lemma reInit_no_upsert p ex : always (emitsOnly (fun e => ~ isUpsert e)) (reInit p ex).
Proof. unfold reInit. frame. Qed.

(** What [Upsert] does, by the entry of the fault script it meets. *)
Lemma Upsert_spec p (row : Spec) (w : World) :
  specObjs w !! p = Some row ->
  exists res w1,
    Upsert p w = (match res with inl e => Err e | inr b => Ok b end, w1)
    /\ trace w1 = trace w ++ [EvUpsert row res]
    /\ specObjs w1 = specObjs w /\ esObjs w1 = esObjs w /\ streams w1 = streams w
    /\ cpTable w1 = cpTable w
    /\ match res with
       | inl _ => esTable w1 = esTable w
       | inr b => esTable w1 = upsertRow row (esTable w)
                  /\ b = negb (existsb (hasID (GetID row)) (esTable w))
       end.
Proof.
  intros Hp. unfold Upsert. mrun. rewrite Hp.
  destruct (faults w) as [|[cause|] rest]; cbn.
  - by eexists (inr _), _.
  - by eexists (inl _), _.
  - by eexists (inr _), _.
Qed.

Lemma prepared_fields (w : World) (s : Spec) :
  ID (prepared w s) = (if noID s then Some (NewID (idsIssued w)) else ID s)
  /\ Status (prepared w s) = Some (default EventStreamStatusStarted (Status s))
  /\ Name (prepared w s) = Name s
  /\ InitialSequenceID (prepared w s) = InitialSequenceID s
  /\ BatchSize (prepared w s) = BatchSize s
  /\ BatchTimeout (prepared w s) = BatchTimeout s
  /\ RetryPolicyOf (prepared w s) = RetryPolicyOf s
  /\ Sink (prepared w s) = Sink s
  /\ Conf (prepared w s) = Conf s.
Proof. unfold prepared. by destruct (noID s). Qed.

(** *** UpsertStream *)

Section Upserts.

Context {TLSJSONConf TLSConfig : Type}.
Variable validName : string -> bool.

Lemma validateStream_false_quiet (esm : esManager TLSJSONConf TLSConfig) p :
  always unchanged (validateStream validName esm p false).
Proof. unfold validateStream. frame. Qed.

Lemma validateStream_false_keeps {A} (f : World -> A)
    (esm : esManager TLSJSONConf TLSConfig) p :
  always (keeps f) (validateStream validName esm p false).
Proof. intros w out w' Hv. apply validateStream_false_quiet in Hv. by rewrite Hv. Qed.

#[local] Hint Resolve validateStream_false_keeps : frame.

Lemma UpsertStream_prefix (esm : esManager TLSJSONConf TLSConfig) p w s :
  specObjs w !! p = Some s ->
  exists w2 existing,
    UpsertStream validName esm p w =
      (if negb (bool_decide (default EventStreamStatusStarted (Status s) = EventStreamStatusStarted)) &&
          negb (bool_decide (default EventStreamStatusStarted (Status s) = EventStreamStatusStopped))
       then fail MsgESStartedOrStopped
       else validateStream validName esm p false ;;
            let* isNew := Upsert p in
            reInit p existing ;;
            ret isNew) w2
    /\ specObjs w2 = <[p := prepared w s]> (specObjs w)
    /\ esTable w2 = esTable w /\ cpTable w2 = cpTable w
    /\ streams w2 = streams w /\ esObjs w2 = esObjs w /\ faults w2 = faults w
    /\ trace w2 = trace w ++ (if noID s then [EvNewID (NewID (idsIssued w))] else []).
Proof.
  intros Hp.
  assert (Hlt : p < length (specObjs w)) by (eapply lookup_lt_Some; eauto).
  unfold UpsertStream, prepared. mrun. rewrite Hp.
  destruct (noID s) eqn:Hid; destruct (Status s) as [st|] eqn:Hst;
    repeat (progress (mrun; rewrite ?Hp, ?Hst, ?list_lookup_insert_eq
                        by (rewrite ?length_insert; done))).
  - eexists _, None. split; [rewrite ?bool_decide_eq_true_2 by done; cbn; reflexivity |]. cbn.
    rewrite setStatus_same by done. done.
  - eexists _, None. split; [rewrite ?bool_decide_eq_true_2 by done; cbn; reflexivity |]. cbn.
    rewrite list_insert_insert_eq. done.
  - eexists _, (streams w !! GetID s). split; [rewrite ?bool_decide_eq_true_2 by done; cbn; reflexivity |]. cbn.
    rewrite setStatus_same, list_insert_id, app_nil_r by done. done.
  - eexists _, (streams w !! GetID s). split; [rewrite ?bool_decide_eq_true_2 by done; cbn; reflexivity |]. cbn. by rewrite app_nil_r.
Qed.

Lemma upsertTail_keeps_specObjs (esm : esManager TLSJSONConf TLSConfig) p ex :
  always (keeps specObjs)
    (validateStream validName esm p false ;;
     let* isNew := Upsert p in
     reInit p ex ;;
     ret isNew).
Proof. frame. Qed.

(** C4.  [UpsertStream] on a spec whose status is set and is neither started
    nor stopped returns the validation error [MsgESStartedOrStopped] and
    leaves the spec table, the checkpoints, the registry and the stream
    objects as they were.  A nil status is defaulted to started before the
    check: the call behaves as on the same spec with the status started.
    Whatever the outcome, the caller's spec ends with the status it had or
    started; where its ID was nil or the empty string it ends with the ID
    the runtime's generator issued, and with the ID it had otherwise. *)
Theorem UpsertStream_status_check (esm : esManager TLSJSONConf TLSConfig) p w s :
  specObjs w !! p = Some s ->
  (forall st, Status s = Some st ->
     st <> EventStreamStatusStarted -> st <> EventStreamStatusStopped ->
     exists w', UpsertStream validName esm p w = (Err MsgESStartedOrStopped, w')
       /\ esTable w' = esTable w /\ cpTable w' = cpTable w
       /\ streams w' = streams w /\ esObjs w' = esObjs w)
  /\ (Status s = None ->
      UpsertStream validName esm p w =
      UpsertStream validName esm p
        (withSpecObjs (<[p := setStatus (Some EventStreamStatusStarted) s]> (specObjs w)) w))
  /\ (forall out w', UpsertStream validName esm p w = (out, w') ->
      exists s', specObjs w' !! p = Some s'
        /\ (ID s = None \/ ID s = Some "" -> ID s' = Some (NewID (idsIssued w)))
        /\ (forall id, ID s = Some id -> id <> "" -> ID s' = Some id)
        /\ Status s' = Some (default EventStreamStatusStarted (Status s))).
Proof.
  intros Hp.
  assert (Hlt : p < length (specObjs w)) by (eapply lookup_lt_Some; eauto).
  destruct (UpsertStream_prefix esm p w s Hp)
    as (w2 & ex & Hrun & Hobjs & Htbl & Hcp & Hstr & Hes & _ & _).
  split; [| split].
  - intros st Hst Hn1 Hn2. exists w2. rewrite Hrun, Hst. cbn.
    by rewrite !bool_decide_eq_false_2 by done.
  - intros Hst. clear Hrun.
    unfold UpsertStream. mrun. rewrite Hp, list_lookup_insert_eq by done.
    replace (noID (setStatus (Some EventStreamStatusStarted) s)) with (noID s) by done.
    destruct (noID s);
      repeat (progress (mrun; rewrite ?Hp, ?Hst, ?list_lookup_insert_eq
                          by (rewrite ?length_insert; done)));
      rewrite ?list_insert_insert_eq; done.
  - intros out w' Hout. exists (prepared w s).
    destruct (prepared_fields w s) as (HID & HSt & _).
    split; [| split; [| split; [| done]]]; cycle 1.
    { intros [Hnil | Hempty]; rewrite HID; unfold noID; [by rewrite Hnil |].
      rewrite Hempty. by rewrite bool_decide_eq_true_2. }
    { intros id Hsome Hne. rewrite HID. unfold noID. rewrite Hsome.
      by rewrite bool_decide_eq_false_2. }
    rewrite Hrun in Hout.
    assert (keeps specObjs w2 w') as ->.
    { destruct (_ && _) in Hout.
      - by injection Hout as <- <-.
      - by apply upsertTail_keeps_specObjs in Hout. }
    by rewrite Hobjs, list_lookup_insert_eq.
Qed.

(** C5.  [UpsertStream] validates with defaults off, so the row handed to
    [Upsert] is the caller's spec as it was on entry but for a freshly
    assigned ID and a defaulted status: every other field is unchanged.  A
    call that returns [isNew] has made that [Upsert]. *)
Theorem UpsertStream_persists_input (esm : esManager TLSJSONConf TLSConfig) p w s out w' :
  specObjs w !! p = Some s ->
  UpsertStream validName esm p w = (out, w') ->
  exists tr, trace w' = trace w ++ tr
    /\ (forall row res, EvUpsert row res ∈ tr ->
          ID row = (if noID s then Some (NewID (idsIssued w)) else ID s)
          /\ Status row = Some (default EventStreamStatusStarted (Status s))
          /\ Name row = Name s
          /\ InitialSequenceID row = InitialSequenceID s
          /\ BatchSize row = BatchSize s
          /\ BatchTimeout row = BatchTimeout s
          /\ RetryPolicyOf row = RetryPolicyOf s
          /\ Sink row = Sink s
          /\ Conf row = Conf s)
    /\ (forall isNew, out = Ok isNew -> exists row, EvUpsert row (inr isNew) ∈ tr).
Proof.
  intros Hp Hout.
  assert (Hlt : p < length (specObjs w)) by (eapply lookup_lt_Some; eauto).
  destruct (UpsertStream_prefix esm p w s Hp)
    as (w2 & ex & Hrun & Hobjs & _ & _ & _ & _ & _ & Htr).
  rewrite Hrun in Hout. clear Hrun.
  assert (Hp2 : specObjs w2 !! p = Some (prepared w s))
    by (by rewrite Hobjs, list_lookup_insert_eq).
  set (tr0 := if noID s then [EvNewID (NewID (idsIssued w))] else []) in *.
  assert (H0 : forall row res, EvUpsert row res ∈ tr0 -> False).
  { intros row res. subst tr0. destruct (noID s); [| by intros ?%elem_of_nil].
    intros [=]%list_elem_of_singleton. }
  destruct (_ && _) in Hout.
  { injection Hout as <- <-. exists tr0. split; [done |]. split; [| done].
    intros row res Hin. by destruct (H0 _ _ Hin). }
  apply bind_inv in Hout as [(? & w3 & Hv & Hout) | (o & Hv & Hpass)]; cycle 1.
  { apply validateStream_false_quiet in Hv. rewrite Hv. exists tr0.
    split; [done |]. split; [intros row res Hin; by destruct (H0 _ _ Hin) |].
    intros isNew ->. by destruct o. }
  apply validateStream_false_quiet in Hv. rewrite Hv in *. clear Hv w3.
  destruct (Upsert_spec p _ w2 Hp2) as (res & w4 & Hup & Htr4 & _).
  apply bind_inv in Hout as [(isNew & w5 & Hup' & Hout) | (o & Hup' & Hpass)]; cycle 1.
  { rewrite Hup in Hup'. injection Hup' as <- <-.
    exists (tr0 ++ [EvUpsert (prepared w s) res]).
    split; [by rewrite Htr4, Htr, app_assoc |]. split.
    - intros row r [Hin | [= -> ->]%list_elem_of_singleton]%elem_of_app.
      + by destruct (H0 _ _ Hin).
      + apply prepared_fields.
    - intros isNew ->. by destruct res. }
  rewrite Hup in Hup'. destruct res as [e | b]; [done |].
  injection Hup' as <- <-.
  assert (Hre : emitsOnly (fun e => ~ isUpsert e) w4 w').
  { apply bind_inv in Hout as [(? & w6 & Hre & Hout) | (o & Hre & Hpass)].
    - injection Hout as <- <-. by apply reInit_no_upsert in Hre.
    - by apply reInit_no_upsert in Hre. }
  destruct Hre as (tr1 & Htr' & Hall).
  exists (tr0 ++ [EvUpsert (prepared w s) (inr b)] ++ tr1).
  split; [by rewrite Htr', Htr4, Htr, !app_assoc |]. split.
  - intros row r [Hin | [[= -> ->]%list_elem_of_singleton | Hin]%elem_of_app]%elem_of_app.
    + by destruct (H0 _ _ Hin).
    + apply prepared_fields.
    + rewrite Forall_forall in Hall. by destruct (Hall _ Hin).
  - intros isNew ->.
    apply bind_inv in Hout as [(? & w6 & Hre & Hout) | (o & Hre & Hpass)]; [| by destruct o].
    injection Hout as <- <-. exists (prepared w s).
    apply elem_of_app. right. left.
Qed.

End Upserts.

(** *** Reading streams *)

Lemma enrichGetStream_keeps {A} (f : World -> A) p :
  (forall w t, f (withTrace t w) = f w) ->
  always (keeps f) (enrichGetStream p).
Proof. intros Hf. unfold enrichGetStream, getStream, liveStatus. frame. Qed.

Lemma enrichGetStream_unknown (w : World) p (s : Spec) :
  specObjs w !! p = Some s ->
  streams w !! GetID s = None ->
  enrichGetStream (Some p) w =
    (Ok (mkWithStatus p EventStreamStatusUnknown),
     withTrace (trace w ++ [EvLog (LogNoInMemoryState (GetID s))]) w).
Proof. intros Hp Hs. unfold enrichGetStream. mrun. by rewrite Hp, Hs. Qed.

Lemma enrichGetStream_no_error p (w : World) e w' : enrichGetStream p w <> (Err e, w').
Proof.
  unfold enrichGetStream, liveStatus. mrun. destruct p as [p|]; [| done].
  destruct (specObjs w !! p) as [s|]; [| done].
  destruct (streams w !! GetID s) as [es|]; [| done].
  by destruct (esObjs w !! es).
Qed.

Lemma enrichAll_no_error ps (w : World) e w' : enrichAll ps w <> (Err e, w').
Proof.
  revert w. induction ps as [| p ps IH]; intros w H; [done |].
  cbn in H. apply bind_inv in H as [(a & w1 & H1 & H) | (o & H1 & Hp)].
  - apply bind_inv in H as [(b & w2 & H2 & H) | (o & H2 & Hp)]; [done |].
    destruct o; try done. cbn in Hp. subst. by apply IH in H2.
  - destruct o; try done. cbn in Hp. subst. by apply enrichGetStream_no_error in H1.
Qed.

Lemma enrichAll_unknown ps (w : World) enriched w' :
  enrichAll ps w = (Ok enriched, w') ->
  specObjs w' = specObjs w /\ streams w' = streams w /\ length enriched = length ps
  /\ forall i p (s : Spec), ps !! i = Some p -> specObjs w !! p = Some s ->
       streams w !! GetID s = None ->
       enriched !! i = Some (mkWithStatus p EventStreamStatusUnknown).
Proof.
  revert w enriched. induction ps as [| p ps IH]; intros w enriched H.
  { injection H as <- <-. done. }
  cbn in H. apply bind_Ok_inv in H as (a & w1 & H1 & H).
  apply bind_Ok_inv in H as (b & w2 & H2 & H). injection H as <- <-.
  pose proof (enrichGetStream_keeps specObjs _ (fun _ _ => eq_refl) _ _ _ H1) as Ho.
  pose proof (enrichGetStream_keeps streams _ (fun _ _ => eq_refl) _ _ _ H1) as Hs.
  unfold keeps in Ho, Hs.
  destruct (IH _ _ H2) as (Ho2 & Hs2 & Hlen & Hall).
  split; [congruence |]. split; [congruence |]. split; [cbn; congruence |].
  intros [| i] q s Hq Hqs Hnone; cbn in *.
  - injection Hq as ->. rewrite (enrichGetStream_unknown _ _ _ Hqs Hnone) in H1.
    by injection H1 as <- <-.
  - eapply Hall; [done | by rewrite Ho | by rewrite Hs].
Qed.

Lemma enrichGetStream_returns (w : World) p (s : Spec) :
  specObjs w !! p = Some s ->
  (forall es, streams w !! GetID s = Some es -> is_Some (esObjs w !! es)) ->
  exists st w', enrichGetStream (Some p) w = (Ok st, w').
Proof.
  intros Hp Hreg. unfold enrichGetStream, liveStatus. mrun. rewrite Hp.
  destruct (streams w !! GetID s) as [es |] eqn:Hes; [| eauto].
  destruct (Hreg es eq_refl) as [e He]. rewrite He. eauto.
Qed.

Lemma enrichAll_returns ps (w : World) :
  Forall (fun p => is_Some (specObjs w !! p)) ps ->
  (forall id es, streams w !! id = Some es -> is_Some (esObjs w !! es)) ->
  exists enriched w', enrichAll ps w = (Ok enriched, w').
Proof.
  revert w. induction ps as [| p ps IH]; intros w Hps Hreg; [by eexists _, _ |].
  apply Forall_cons in Hps as [[s Hp] Hps].
  destruct (enrichGetStream_returns w p s Hp (Hreg _)) as (st & w1 & H1).
  pose proof (enrichGetStream_keeps specObjs _ (fun _ _ => eq_refl) _ _ _ H1) as Ho.
  pose proof (enrichGetStream_keeps streams _ (fun _ _ => eq_refl) _ _ _ H1) as Hs.
  pose proof (enrichGetStream_keeps esObjs _ (fun _ _ => eq_refl) _ _ _ H1) as He.
  unfold keeps in Ho, Hs, He.
  destruct (IH w1) as (enriched & w' & H2).
  { by rewrite Ho. }
  { intros id es. rewrite Hs, He. apply Hreg. }
  exists (st :: enriched), w'. cbn.
  rewrite (bind_ok _ _ _ _ _ H1), (bind_ok _ _ _ _ _ H2). done.
Qed.

(** What a successful [GetMany] leaves of the registry and of the objects:
    the registry and the stream objects as they were, and a spec object
    behind every pointer it returns. *)
Lemma GetMany_Ok_objects filter (w : World) ps fr w1 :
  GetMany filter w = (Ok (ps, fr), w1) ->
  streams w1 = streams w /\ esObjs w1 = esObjs w
  /\ Forall (fun p => is_Some (specObjs w1 !! p)) ps.
Proof.
  unfold GetMany, newSpecs. mrun.
  assert (Hseq : forall (objs rows : list Spec),
            Forall (fun p => is_Some ((objs ++ rows) !! p)) (seq (length objs) (length rows))).
  { intros objs rows. apply Forall_forall. intros q Hq%elem_of_seq.
    apply lookup_lt_is_Some. rewrite length_app. lia. }
  destruct (faults w) as [| [cause |] rest]; cbn; intros [= <- <- <-]; cbn; try done.
Qed.

(** C6.  A spec that persistence returns to [GetStreamByID] or to
    [ListStreams] and that has no LiveStream in the registry is wrapped, as
    returned, with the status unknown; a missing LiveStream is never an
    error: the two operations return an error only when the persistence
    call did.  Over a registry of valid stream objects [ListStreams]
    returns whenever the persistence call did: one entry for each spec
    returned, in order, and the specs without a LiveStream with the status
    unknown. *)
Theorem absent_live_stream_reports_unknown :
  (forall (w : World) id opts p w1 (s : Spec),
     GetByID id opts w = (Ok (Some p), w1) ->
     specObjs w1 !! p = Some s ->
     streams w1 !! GetID s = None ->
     exists w', GetStreamByID id opts w = (Ok (mkWithStatus p EventStreamStatusUnknown), w')
       /\ specObjs w' !! p = Some s)
  /\ (forall (w : World) id opts e w',
        GetStreamByID id opts w = (Err e, w') -> GetByID id opts w = (Err e, w'))
  /\ (forall (w : World) filter ps fr w1 out w',
        GetMany filter w = (Ok (ps, fr), w1) ->
        ListStreams filter w = (out, w') ->
        (forall e, out <> Err e)
        /\ forall enriched fr',
             out = Ok (enriched, fr') ->
             fr' = fr /\ length enriched = length ps
             /\ forall i p (s : Spec), ps !! i = Some p -> specObjs w1 !! p = Some s ->
                  streams w1 !! GetID s = None ->
                  enriched !! i = Some (mkWithStatus p EventStreamStatusUnknown)
                  /\ specObjs w' !! p = Some s)
  /\ (forall (w : World) filter e w',
        ListStreams filter w = (Err e, w') -> GetMany filter w = (Err e, w'))
  /\ (forall (w : World) filter ps fr w1,
        GetMany filter w = (Ok (ps, fr), w1) ->
        registryValid w ->
        exists enriched w',
          ListStreams filter w = (Ok (enriched, fr), w')
          /\ length enriched = length ps
          /\ forall i p (s : Spec), ps !! i = Some p -> specObjs w1 !! p = Some s ->
               streams w1 !! GetID s = None ->
               enriched !! i = Some (mkWithStatus p EventStreamStatusUnknown)
               /\ specObjs w' !! p = Some s).
Proof.
  split; [| split; [| split; [| split]]]; cycle 4.
  { intros w filter ps fr w1 Hget Hvalid.
    destruct (GetMany_Ok_objects _ _ _ _ _ Hget) as (Hs1 & He1 & Hps).
    destruct (enrichAll_returns ps w1 Hps) as (enriched & w' & Hrun).
    { intros id es Hes. rewrite Hs1 in Hes. rewrite He1.
      specialize (Hvalid id es Hes). unfold objectsValid in Hvalid.
      destruct (esObjs w !! es); [eauto | by destruct Hvalid]. }
    exists enriched, w'. split.
    { unfold ListStreams. rewrite (bind_ok _ _ _ _ _ Hget). cbn.
      by rewrite (bind_ok _ _ _ _ _ Hrun). }
    destruct (enrichAll_unknown _ _ _ _ Hrun) as (Ho & Hs & Hlen & Hall).
    split; [done |].
    intros i p s Hi Hp Hnone. split; [eauto | congruence]. }
  - intros w id opts p w1 s Hget Hp Hnone. unfold GetStreamByID.
    rewrite (bind_ok _ _ _ _ _ Hget), (enrichGetStream_unknown _ _ _ Hp Hnone).
    eexists. split; [done |]. done.
  - intros w id opts e w' H. unfold GetStreamByID in H.
    apply bind_inv in H as [(a & w1 & H1 & H) | (o & H1 & Hp)].
    + by apply enrichGetStream_no_error in H.
    + destruct o; try done. cbn in Hp. by subst.
  - intros w filter ps fr w1 out w' Hget H. unfold ListStreams in H.
    rewrite (bind_ok _ _ _ _ _ Hget) in H. cbn in H.
    apply bind_inv in H as [(enr & w2 & H1 & H) | (o & H1 & Hp)].
    + injection H as <- <-. split; [done |].
      intros enriched fr' [= <- <-].
      destruct (enrichAll_unknown _ _ _ _ H1) as (Ho & Hs & Hlen & Hall).
      split; [done |]. split; [done |].
      intros i p s Hi Hp Hnone. split; [eauto | congruence].
    + split.
      * intros e ->. destruct o; try done. cbn in Hp. subst.
        by apply enrichAll_no_error in H1.
      * intros enriched fr' ->. by destruct o.
  - intros w filter e w' H. unfold ListStreams in H.
    apply bind_inv in H as [(a & w1 & H1 & H) | (o & H1 & Hp)].
    + apply bind_inv in H as [(b & w2 & H2 & H) | (o & H2 & Hp)]; [done |].
      destruct o; try done. cbn in Hp. subst. by apply enrichAll_no_error in H2.
    + destruct o; try done. cbn in Hp. by subst.
Qed.

(** *** What the collaborators do when they succeed *)

Ltac mrun_in H :=
  repeat (progress (unfold bind, ret, fail, panic, gets, modify, emit, newID, updateSpec,
            updateStream, getStream, nextFault, deref, newStream, newSpecs,
            withTable, withCheckpoints, withSpecObjs, withEsObjs, withStreams,
            withIdsIssued, withFaults, withTrace in H; cbn in H)).

Ltac cases_in H :=
  repeat match type of H with
         | context [match faults ?w with _ => _ end] =>
             destruct (faults w) as [| [?|] ?] eqn:?; cbn in H; try discriminate H
         | context [match ?l !! ?p with _ => _ end] =>
             destruct (l !! p) eqn:?; cbn in H; try discriminate H
         | context [match state ?e with _ => _ end] =>
             destruct (state e) eqn:?; cbn in H; try discriminate H
         end.

(** Membership in a list that is written out. *)
Ltac in_list := cbn; repeat first [ left | right ].

Ltac world_eq := solve [ done | congruence | f_equal; solve [ done | congruence ] ].

Lemma suspend_Ok es (w w1 : World) :
  suspend es w = (Ok tt, w1) ->
  exists e, esObjs w !! es = Some e
    /\ w1 = withEsObjs (<[es := quiesce e]> (esObjs w))
              (afterCall [EvSuspend es; EvSuspended es None] w).
Proof.
  unfold suspend, afterCall. intros H. mrun_in H. cases_in H;
    injection H as <-; eexists; (split; [done |]); mrun; rewrite <- ?app_assoc; cbn; world_eq.
Qed.

Lemma DeleteCheckpoints_Ok id (w w1 : World) :
  DeleteCheckpoints id w = (Ok tt, w1) ->
  w1 = withCheckpoints (List.filter (fun c => negb (bool_decide (cpID c = id))) (cpTable w))
         (afterCall [EvDeleteCheckpoints id None] w).
Proof.
  unfold DeleteCheckpoints, afterCall. intros H. mrun_in H. cases_in H;
    injection H as <-; mrun; world_eq.
Qed.

Lemma UpdateSparse_Ok partial (w w1 : World) :
  UpdateSparse partial w = (Ok tt, w1) ->
  w1 = withTable (updateSparseRow partial (esTable w))
         (afterCall [EvUpdateSparse partial None] w).
Proof.
  unfold UpdateSparse, afterCall. intros H. mrun_in H. cases_in H;
    injection H as <-; mrun; world_eq.
Qed.

Lemma Delete_Ok id (w w1 : World) :
  Delete id w = (Ok tt, w1) ->
  w1 = withTable (deleteRow id (esTable w)) (afterCall [EvDelete id None] w).
Proof.
  unfold Delete, afterCall. intros H. mrun_in H. cases_in H;
    injection H as <-; mrun; world_eq.
Qed.

Lemma start_Ok es (w w1 : World) :
  start es w = (Ok tt, w1) ->
  exists e, esObjs w !! es = Some e
    /\ (state e = Created \/ state e = Stopped)
    /\ w1 = withEsObjs (<[es := activate e]> (esObjs w)) (afterCall [EvStart es None] w).
Proof.
  unfold start, afterCall. intros H. mrun_in H. cases_in H;
    simplify_eq; eexists; (split; [done |]); (split; [by auto |]); mrun; world_eq.
Qed.

Lemma updateSpec_Ok p f (w w1 : World) :
  updateSpec p f w = (Ok tt, w1) ->
  exists s, specObjs w !! p = Some s /\ w1 = withSpecObjs (<[p := f s]> (specObjs w)) w.
Proof.
  unfold updateSpec. intros H. mrun_in H. cases_in H. injection H as <-. eauto.
Qed.

Lemma deref_Ok {A} (f : World -> list A) p (w : World) a w1 :
  deref f p w = (Ok a, w1) -> f w !! p = Some a /\ w1 = w.
Proof. unfold deref. intros H. cases_in H. by injection H as <- <-. Qed.

(** *** ResetStream *)

Lemma activate_state e :
  state e = Created \/ state e = Stopped -> state (activate e) = Starting.
Proof. unfold activate. by intros [-> | ->]. Qed.

Lemma activate_spec e : spec (activate e) = spec e.
Proof. unfold activate. by destruct (state e). Qed.

Lemma quiesce_spec e : spec (quiesce e) = spec e.
Proof. unfold quiesce. by destruct (state e). Qed.

(** C2, as amended.  After [ResetStream id sequenceID] has returned without
    error on a registered stream: no checkpoint of the stream is left; the
    rows of the stream have the new [InitialSequenceID] and are otherwise
    what they were, by one sparse update that carries the ID and the
    [InitialSequenceID] only; the stream's in-memory spec has the new
    [InitialSequenceID]; and the stream was started again exactly when the
    status of that in-memory spec is started. *)
Theorem ResetStream_resets id sequenceID (w w' : World) es :
  streams w !! id = Some es ->
  ResetStream id sequenceID w = (Ok tt, w') ->
  (forall c, c ∈ cpTable w' -> cpID c <> id)
  /\ esTable w' =
       map (fun r => if hasID id r then setInitialSequenceID (Some sequenceID) r else r)
           (esTable w)
  /\ (forall row, row ∈ esTable w' -> GetID row = id ->
        InitialSequenceID row = Some sequenceID)
  /\ exists e s tr,
       esObjs w' !! es = Some e
       /\ specObjs w' !! spec e = Some s
       /\ InitialSequenceID s = Some sequenceID
       /\ trace w' = trace w ++ tr
       /\ EvUpdateSparse (mkSpec (Some id) None None (Some sequenceID) None None None None None)
            None ∈ tr
       /\ (EvStart es None ∈ tr <-> Status s = Some EventStreamStatusStarted)
       /\ (Status s = Some EventStreamStatusStarted -> state e = Starting).
Proof.
  intros Hes H. unfold ResetStream in H.
  apply bind_Ok_inv in H as (found & w0 & Hget & H).
  injection Hget as <- <-. rewrite Hes in H.
  apply bind_Ok_inv in H as ([] & w1 & Hsus & H).
  apply suspend_Ok in Hsus as (e0 & He0 & ->).
  apply bind_Ok_inv in H as ([] & w2 & Hdel & H).
  apply DeleteCheckpoints_Ok in Hdel as ->.
  apply bind_Ok_inv in H as (e1 & w3 & Hde & H).
  apply deref_Ok in Hde as [He1 ->]. cbn in He1.
  assert (Hlt : es < length (esObjs w)) by (eapply lookup_lt_Some; eauto).
  rewrite list_lookup_insert_eq in He1 by done. injection He1 as <-.
  rewrite quiesce_spec in H.
  apply bind_Ok_inv in H as ([] & w4 & Hupd & H).
  apply updateSpec_Ok in Hupd as (s0 & Hs0 & ->). cbn in Hs0.
  assert (Hlt' : spec e0 < length (specObjs w)) by (eapply lookup_lt_Some; eauto).
  apply bind_Ok_inv in H as ([] & w5 & Hsp & H).
  apply UpdateSparse_Ok in Hsp as ->.
  apply bind_Ok_inv in H as (s1 & w6 & Hde & H).
  apply deref_Ok in Hde as [Hs1 ->]. cbn in Hs1.
  rewrite list_lookup_insert_eq in Hs1 by done. injection Hs1 as <-.
  assert (Htbl : forall tbl : list Spec,
            updateSparseRow (setInitialSequenceID (Some sequenceID) (setID (Some id) emptySpec)) tbl
            = map (fun r => if hasID id r then setInitialSequenceID (Some sequenceID) r else r) tbl).
  { intros tbl. unfold updateSparseRow. apply map_ext. intros r. cbn.
    destruct (hasID id r); [| done]. by destruct r. }
  assert (Hcp : forall (cps : list Checkpoint) c,
            c ∈ List.filter (fun c => negb (bool_decide (cpID c = id))) cps -> cpID c <> id).
  { intros cps c [_ Hc]%list_elem_of_In%filter_In.
    apply negb_true_iff, bool_decide_eq_false in Hc. done. }
  assert (Hrow : forall (tbl : list Spec) row,
            row ∈ map (fun r => if hasID id r then setInitialSequenceID (Some sequenceID) r else r) tbl ->
            GetID row = id -> InitialSequenceID row = Some sequenceID).
  { intros tbl row (r & -> & _)%list_elem_of_fmap Hid.
    destruct (hasID id r) eqn:Hr; [done |].
    apply bool_decide_eq_false in Hr. done. }
  change (Status (setInitialSequenceID (Some sequenceID) s0)) with (Status s0) in H.
  destruct (Status s0) as [st |] eqn:Hst; [| done].
  destruct (bool_decide (st = EventStreamStatusStarted)) eqn:Hstarted.
  - apply bool_decide_eq_true in Hstarted as ->.
    apply start_Ok in H as (e2 & He2 & Hguard & ->). cbn in He2.
    rewrite list_lookup_insert_eq in He2 by done. injection He2 as <-.
    cbn. rewrite Htbl. repeat split; eauto.
    eexists (activate (quiesce e0)), _, _.
    rewrite list_lookup_insert_eq by (by rewrite length_insert).
    rewrite activate_spec, quiesce_spec, list_lookup_insert_eq by done.
    split; [done |]. split; [done |]. split; [done |].
    split; [by rewrite <- !app_assoc |].
    split; [in_list |]. split; [| intros _; by apply activate_state].
    split; [done | in_list].
  - apply bool_decide_eq_false in Hstarted. injection H as <-.
    cbn. rewrite Htbl. repeat split; eauto.
    eexists (quiesce e0), _, _.
    rewrite list_lookup_insert_eq by done.
    rewrite quiesce_spec, list_lookup_insert_eq by done.
    split; [done |]. split; [done |]. split; [done |].
    split; [by rewrite <- !app_assoc |].
    split; [in_list |]. cbn. rewrite Hst.
    split; [| intros [= ->]; done].
    split; [| intros [= ->]; done].
    intros Hin. exfalso. cbn in Hin.
    repeat (apply elem_of_cons in Hin as [Hin | Hin]; [discriminate Hin |]).
    by apply elem_of_nil in Hin.
Qed.

(** *** Startup *)

Lemma initEventStream_Ok p (w : World) es w1 :
  initEventStream p w = (Ok es, w1) ->
  exists s, specObjs w !! p = Some s
    /\ es = length (esObjs w)
    /\ w1 = withEsObjs
              (esObjs w ++ [if bool_decide (Status s = Some EventStreamStatusStarted)
                            then activate (mkStream p Created)
                            else mkStream p Created])
              (afterCall [EvInitEventStream p s (inr es)] w).
Proof.
  unfold initEventStream, afterCall. intros H. mrun_in H. cases_in H;
    simplify_eq; eexists; (split; [done |]); (split; [done |]); mrun; world_eq.
Qed.

Lemma addStream_Ok es (w : World) w1 :
  addStream es w = (Ok tt, w1) ->
  exists e s name,
    esObjs w !! es = Some e /\ specObjs w !! spec e = Some s /\ Name s = Some name
    /\ w1 = withStreams (<[GetID s := es]> (streams w))
              (withTrace (trace w ++ [EvLog (LogAddingStream name (GetID s) (statusOf (state e)))]) w).
Proof.
  unfold addStream, liveStatus. intros H. mrun_in H. cases_in H.
  destruct (Name _) eqn:Hn; [| done]. mrun_in H. cases_in H. simplify_eq.
  eexists _, _, _. split; [done |]. split; [done |]. split; [done |]. mrun; world_eq.
Qed.

Lemma GetMany_Ok filter (w : World) ps fr w1 :
  GetMany filter w = (Ok (ps, fr), w1) ->
  let rows := page (fSkip filter) (fLimit filter) (List.filter (fCond filter) (esTable w)) in
  ps = seq (length (specObjs w)) (length rows)
  /\ w1 = withSpecObjs (specObjs w ++ rows)
            (afterCall [EvGetMany (fSkip filter) (fLimit filter) (inr rows)] w).
Proof.
  unfold GetMany, afterCall. intros H. mrun_in H. cases_in H;
    simplify_eq; (split; [done |]); mrun; world_eq.
Qed.

Lemma startupActions_app (tr1 tr2 : list (Event CT)) :
  startupActions (tr1 ++ tr2) = startupActions tr1 ++ startupActions tr2.
Proof. apply omap_app. Qed.

Lemma encountered_app (tr1 tr2 : list (Event CT)) : encountered (tr1 ++ tr2) = encountered tr1 ++ encountered tr2.
Proof. apply flat_map_app. Qed.

Lemma newSpecs_lookup {A} (objs rows : list A) :
  Forall2 (fun p r => (objs ++ rows) !! p = Some r) (seq (length objs) (length rows)) rows.
Proof.
  revert objs. induction rows as [| r rows IH]; intros objs; [constructor |].
  cbn. constructor; [by apply list_lookup_middle |].
  specialize (IH (objs ++ [r])). rewrite length_app, Nat.add_1_r, <- app_assoc in IH.
  exact IH.
Qed.

Lemma initializePage_actions ps rows (w w' : World) :
  Forall2 (fun p r => specObjs w !! p = Some r) ps rows ->
  initializePage ps w = (Ok tt, w') ->
  specObjs w' = specObjs w
  /\ length (esTable w') <= length (esTable w)
  /\ exists tr, trace w' = trace w ++ tr
       /\ startupActions tr = actionFor <$> rows
       /\ encountered tr = [].
Proof.
  revert rows w. induction ps as [| p ps IH]; intros rows w Hrows H.
  { apply Forall2_nil_inv_l in Hrows as ->. injection H as <-.
    split; [done |]. split; [done |]. exists []. by rewrite app_nil_r. }
  apply Forall2_cons_inv_l in Hrows as (r & rows' & Hp & Hrows & ->).
  cbn in H. rewrite (bind_ok _ _ _ _ _ (deref_ok specObjs _ _ _ Hp)) in H.
  destruct (Status r) as [st |] eqn:Hst; [| done].
  apply bind_Ok_inv in H as ([] & w1 & Hact & H).
  destruct (bool_decide (st = EventStreamStatusDeleted)) eqn:Hdel.
  - apply bool_decide_eq_true in Hdel as ->.
    apply Delete_Ok in Hact as ->.
    eapply IH in H as (Ho & Hlen & tr & Htr & Hacts & Henc); [| exact Hrows].
    split; [done |]. split.
    { etrans; [exact Hlen |]. cbn. apply List.filter_length_le. }
    exists (EvDelete (GetID r) None :: tr).
    split; [by rewrite Htr; cbn; rewrite <- app_assoc |].
    cbn. unfold actionFor at 1. rewrite Hst, bool_decide_eq_true_2 by done.
    split; [by f_equal | done].
  - apply bool_decide_eq_false in Hdel.
    apply bind_Ok_inv in Hact as (es & w2 & Hinit & Hadd).
    apply initEventStream_Ok in Hinit as (s & Hs & -> & ->).
    rewrite Hp in Hs. injection Hs as <-.
    apply addStream_Ok in Hadd as (e & s' & name & _ & _ & _ & ->).
    eapply IH in H as (Ho & Hlen & tr & Htr & Hacts & Henc); [| exact Hrows].
    split; [done |]. split; [done |].
    eexists (_ :: _ :: tr).
    split; [by rewrite Htr; cbn; rewrite <- !app_assoc |].
    cbn. unfold actionFor at 1. rewrite Hst, bool_decide_eq_false_2 by congruence.
    split; [by f_equal | done].
Qed.

Lemma initializeFrom_actions fuel skip (w w' : World) :
  initializeFrom fuel skip w = (Ok tt, w') ->
  exists tr, trace w' = trace w ++ tr
    /\ startupActions tr = actionFor <$> encountered tr.
Proof.
  revert skip w. induction fuel as [| fuel IH]; intros skip w H; [done |].
  cbn in H. apply bind_Ok_inv in H as ([ps fr] & w1 & Hget & H).
  apply GetMany_Ok in Hget as [-> ->]. cbn in H.
  remember (page skip pageSize (List.filter (fun _ => true) (esTable w))) as rows eqn:Hrows.
  pose proof (newSpecs_lookup (specObjs w) rows) as Hps.
  destruct (seq (length (specObjs w)) (length rows)) as [| p ps] eqn:Hseq.
  { unfold ret in H. injection H as <-. apply Forall2_nil_inv_l in Hps as ->.
    exists [EvGetMany skip pageSize (inr [])]. done. }
  apply bind_Ok_inv in H as ([] & w2 & Hpage & H).
  apply initializePage_actions with (rows := rows) in Hpage
    as (_ & _ & tr1 & Htr1 & Hacts1 & Henc1); [| done].
  apply IH in H as (tr2 & Htr2 & Hacts2).
  exists ([EvGetMany skip pageSize (inr rows)] ++ tr1 ++ tr2).
  split.
  { rewrite Htr2, Htr1. cbn. by rewrite <- !app_assoc. }
  rewrite !startupActions_app, !encountered_app, Henc1, Hacts1, Hacts2. cbn.
  by rewrite app_nil_r, fmap_app.
Qed.

(** *** The startup loop ends *)

#[local] Instance tableShrinks_refl : Reflexive tableShrinks.
Proof. intros w. unfold tableShrinks. lia. Qed.
#[local] Instance tableShrinks_trans : Transitive tableShrinks.
Proof. unfold tableShrinks. intros w1 w2 w3 H1 H2. lia. Qed.

Lemma Delete_shrinks id : always tableShrinks (Delete id).
Proof. unfold Delete. frame. Qed.

Lemma initEventStream_shrinks p : always tableShrinks (initEventStream p).
Proof. unfold initEventStream, newStream. frame. Qed.

Lemma addStream_shrinks es : always tableShrinks (addStream es).
Proof. unfold addStream, liveStatus. frame. Qed.

#[local] Hint Resolve Delete_shrinks initEventStream_shrinks addStream_shrinks : frame.

Lemma initializePage_shrinks ps : always tableShrinks (initializePage ps).
Proof. induction ps as [| p ps IH]; cbn; frame. Qed.

Lemma returns_bind {A B} (m : M A) (k : A -> M B) :
  returns m -> (forall a, returns (k a)) -> returns (bind m k).
Proof.
  intros Hm Hk w w' H. apply bind_inv in H as [(a & w1 & _ & H) | (o & H & Hp)].
  - by apply Hk in H.
  - destruct o; try done. by apply Hm in H.
Qed.

Lemma returns_pure {A} (f : World -> A * World) :
  returns (fun w => (Ok (f w).1, (f w).2)).
Proof. by intros w w'. Qed.

Lemma returns_deref {A} (f : World -> list A) p : returns (deref f p).
Proof. intros w w'. unfold deref. by destruct (f w !! p). Qed.

Lemma returns_nextFault : returns (@nextFault CT).
Proof. intros w w'. unfold nextFault. by destruct (faults w). Qed.

Ltac returns_tac :=
  repeat first
    [ apply returns_deref
    | apply returns_nextFault
    | apply returns_bind; [ | intros ? ]
    | match goal with
      | |- returns (match ?x with _ => _ end) => destruct x
      end
    | solve [ intros ? ? ; done ] ].

Lemma Delete_returns id : returns (Delete id).
Proof. unfold Delete. returns_tac. Qed.

Lemma initEventStream_returns p : returns (initEventStream p).
Proof. unfold initEventStream. returns_tac. Qed.

Lemma addStream_returns es : returns (addStream es).
Proof. unfold addStream, liveStatus. returns_tac. Qed.

Lemma GetMany_returns filter : returns (GetMany filter).
Proof. unfold GetMany. returns_tac. Qed.

Lemma initializePage_returns ps : returns (initializePage ps).
Proof.
  induction ps as [| p ps IH]; [done |]. cbn.
  apply returns_bind; [apply returns_deref |]. intros s.
  destruct (Status s) as [st |]; [| done].
  apply returns_bind; [| done].
  destruct (bool_decide _); [apply Delete_returns |].
  apply returns_bind; [apply initEventStream_returns | intros; apply addStream_returns].
Qed.

Lemma filter_all {A} (l : list A) : List.filter (fun _ => true) l = l.
Proof. induction l as [| x l IH]; [done |]. cbn. by rewrite IH. Qed.

Lemma initializeFrom_returns fuel skip (w w' : World) :
  0 < fuel ->
  length (esTable w) + pageSize <= skip + pageSize * fuel ->
  initializeFrom fuel skip w <> (OutOfFuel, w').
Proof.
  revert skip w. induction fuel as [| fuel IH]; intros skip w Hpos Hfuel H; [lia |].
  cbn in H. apply bind_inv in H as [([ps fr] & w1 & Hget & H) | (o & Hget & Hp)]; cycle 1.
  { destruct o; try done. by apply GetMany_returns in Hget. }
  apply GetMany_Ok in Hget as [-> ->]. cbn in H. rewrite filter_all in H.
  remember (page skip pageSize (esTable w)) as rows eqn:Hrows.
  destruct rows as [| r rows]; [done |].
  assert (Hskip : skip < length (esTable w)).
  { destruct (decide (skip < length (esTable w))) as [| Hge]; [done |].
    unfold page, pageSize in Hrows. rewrite drop_ge in Hrows by lia. done. }
  cbn [length seq] in H.
  apply bind_inv in H as [([] & w2 & Hpage & H) | (o & Hpage & Hp)]; cycle 1.
  { destruct o; try done. by apply initializePage_returns in Hpage. }
  apply initializePage_shrinks in Hpage. unfold tableShrinks in Hpage. cbn in Hpage.
  unfold pageSize in *.
  apply IH in H; [done | lia | lia].
Qed.

(** X10.  Startup ends.  The loop of [initialize] has no bound of its own; it
    ends because every page read raises [skip] by the page size while the
    table does not grow, so a page comes back empty: the fuel the embedding
    runs the loop on is never used up, whatever the table holds and whatever
    fails on the way. *)
Lemma initialize_returns (w w' : World) : initialize w <> (OutOfFuel, w').
Proof.
  unfold initialize. intros H.
  apply bind_inv in H as [(n & w1 & [= <- <-] & H) | (o & [= <- <-] & Hp)]; [| done].
  apply initializeFrom_returns in H; [done | lia | unfold pageSize; lia].
Qed.

(** C1, as amended.  A startup that succeeds handles the specs one by one in
    the order the pages return them: the i-th step removes the row of the
    i-th spec when its status is deleted and builds its LiveStream
    otherwise.  So the row of a deleted spec is removed before any
    LiveStream of a spec met after it, after those of the specs met before
    it, and no LiveStream is built for the deleted spec. *)
Theorem initialize_purges_in_page_order (w w' : World) :
  initialize w = (Ok tt, w') ->
  exists tr, trace w' = trace w ++ tr
    /\ startupActions tr = actionFor <$> encountered tr
    /\ forall i s, encountered tr !! i = Some s ->
         Status s = Some EventStreamStatusDeleted ->
         startupActions tr !! i = Some (RowRemoved (GetID s))
         /\ forall j t, encountered tr !! j = Some t ->
              Status t <> Some EventStreamStatusDeleted ->
              startupActions tr !! j = Some (StreamCreated t).
Proof.
  unfold initialize. intros H.
  apply bind_Ok_inv in H as (n & w1 & [= <- <-] & H).
  apply initializeFrom_actions in H as (tr & Htr & Hacts).
  exists tr. split; [done |]. split; [done |].
  intros i s Hi Hdel. rewrite Hacts. split.
  - rewrite list_lookup_fmap, Hi. cbn. unfold actionFor.
    by rewrite bool_decide_eq_true_2.
  - intros j t Hj Hnot. rewrite list_lookup_fmap, Hj. cbn. unfold actionFor.
    by rewrite bool_decide_eq_false_2.
Qed.

(** *** Close *)

Lemma objectsValid_alt (w : World) es :
  objectsValid w es <->
  exists e s, esObjs w !! es = Some e /\ specObjs w !! spec e = Some s.
Proof.
  unfold objectsValid. destruct (esObjs w !! es) as [e |]; cbn.
  - split.
    + intros [s Hs]. eauto.
    + intros (e' & s & [= <-] & Hs). eauto.
  - split; [by intros [? ?] | by intros (? & ? & ? & ?)].
Qed.

Lemma objectsValid_quiesce (w w1 : World) es e :
  esObjs w !! es = Some e ->
  specObjs w1 = specObjs w ->
  esObjs w1 = <[es := quiesce e]> (esObjs w) ->
  forall p, objectsValid w p -> objectsValid w1 p.
Proof.
  intros He Hspecs Hobjs p (e' & s' & He' & Hs')%objectsValid_alt.
  assert (Hlt : es < length (esObjs w)) by (eapply lookup_lt_Some; eauto).
  apply objectsValid_alt. rewrite Hspecs, Hobjs.
  destruct (decide (p = es)) as [-> | Hne].
  - rewrite list_lookup_insert_eq by done.
    pose proof (eq_trans (eq_sym He') He) as [= ->].
    exists (quiesce e), s'. by rewrite quiesce_spec.
  - rewrite list_lookup_insert_ne by done. eauto.
Qed.

Lemma suspend_cases es (w : World) :
  objectsValid w es ->
  (exists w1, suspend es w = (Ok tt, w1)
     /\ trace w1 = trace w ++ [EvSuspend es; EvSuspended es None]
     /\ (forall p, objectsValid w p -> objectsValid w1 p))
  \/ (exists err w1, suspend es w = (Err err, w1)
      /\ trace w1 = trace w ++ [EvSuspend es; EvSuspended es (Some err)]
      /\ (forall p, objectsValid w p -> objectsValid w1 p)).
Proof.
  intros (e & s & He & Hs)%objectsValid_alt.
  unfold suspend. mrun.
  destruct (faults w) as [| [cause |] rest] eqn:Hf; mrun; rewrite ?He; cbn.
  - left. eexists. split; [done |]. rewrite <- app_assoc. split; [done |].
    by apply (objectsValid_quiesce w _ es e).
  - right. eexists _, _. split; [done |]. rewrite <- app_assoc. split; [done |].
    intros p Hp. exact Hp.
  - left. eexists. split; [done |]. rewrite <- app_assoc. split; [done |].
    by apply (objectsValid_quiesce w _ es e).
Qed.

Lemma closeStreams_trace entries (w : World) :
  Forall (fun en => objectsValid w en.2) entries ->
  exists w' tr, closeStreams entries w = (Ok tt, w')
    /\ trace w' = trace w ++ tr
    /\ closeTrace entries.*2 tr.
Proof.
  revert w. induction entries as [| [id es] entries IH]; intros w Hvalid.
  { exists w, []. rewrite app_nil_r. split; [done |]. split; [done | constructor]. }
  apply Forall_cons in Hvalid as [Hes Hvalid]. cbn in Hes.
  cbn [closeStreams].
  destruct (suspend_cases es w Hes) as [(w1 & Hsus & Htr & Hkeep) | (err & w1 & Hsus & Htr & Hkeep)].
  - destruct (IH w1) as (w' & tr & Hrun & Htr' & Hct).
    { eapply Forall_impl; [exact Hvalid |]. intros en. apply Hkeep. }
    exists w', (EvSuspend es :: EvSuspended es None :: tr).
    split.
    { unfold bind at 1. unfold bind at 1. unfold try. rewrite Hsus. cbn. exact Hrun. }
    split; [by rewrite Htr', Htr, <- app_assoc |].
    by constructor.
  - destruct (proj1 (objectsValid_alt _ _) (Hkeep _ Hes)) as (e & s & He & Hs).
    set (w2 := withTrace (trace w1 ++ [EvLog (LogFailedToStop (GetID s) err)]) w1).
    destruct (IH w2) as (w' & tr & Hrun & Htr' & Hct).
    { eapply Forall_impl; [exact Hvalid |]. intros en Hen. apply Hkeep in Hen. exact Hen. }
    exists w', (EvSuspend es :: EvSuspended es (Some err) ::
                EvLog (LogFailedToStop (GetID s) err) :: tr).
    split.
    { unfold bind at 1. unfold bind at 1. unfold try. rewrite Hsus. cbn.
      mrun. rewrite He, Hs. exact Hrun. }
    split; [by rewrite Htr'; subst w2; cbn; rewrite Htr, <- !app_assoc |].
    by constructor.
Qed.

Lemma closeTrace_complete ps (tr : list (Event CT)) es :
  closeTrace ps tr -> es ∈ ps ->
  exists r, EvSuspend es ∈ tr /\ EvSuspended es r ∈ tr.
Proof.
  induction 1 as [| p rest tr Hct IH | p id err rest tr Hct IH]; intros Hin.
  - by apply elem_of_nil in Hin.
  - apply elem_of_cons in Hin as [-> | Hin].
    + exists None. split; [left | right; left].
    + destruct (IH Hin) as (r & H1 & H2). exists r.
      split; by do 2 right.
  - apply elem_of_cons in Hin as [-> | Hin].
    + exists (Some err). split; [left | right; left].
    + destruct (IH Hin) as (r & H1 & H2). exists r.
      split; by do 3 right.
Qed.

(** C7, as amended.  [Close] returns, and returns without error, after it has
    suspended every LiveStream of the registry, one after the other in
    the order of the map iteration: the trace is, for each stream in turn,
    the call of [suspend], its return and, when it failed, the warning.  A
    failed suspend does not keep the later streams from being suspended. *)
Theorem Close_suspends_in_turn (w : World) :
  registryValid w ->
  exists w' tr, Close w = (Ok tt, w')
    /\ trace w' = trace w ++ tr
    /\ closeTrace (range (streams w)).*2 tr
    /\ forall id es, streams w !! id = Some es ->
         exists r, EvSuspend es ∈ tr /\ EvSuspended es r ∈ tr.
Proof.
  intros Hvalid.
  assert (Hin : forall id es, (id, es) ∈ range (streams w) <-> streams w !! id = Some es).
  { intros id es. rewrite (range_perm _ (streams w)). apply elem_of_map_to_list. }
  destruct (closeStreams_trace (range (streams w)) w) as (w' & tr & Hrun & Htr & Hct).
  { apply Forall_forall. intros [id es] Hen. apply Hin in Hen. cbn. eapply Hvalid, Hen. }
  exists w', tr. split; [| split; [done | split; [done |]]].
  - unfold Close. by mrun.
  - intros id es Hes. eapply closeTrace_complete; [exact Hct |].
    apply list_elem_of_fmap. exists (id, es). split; [done |]. by apply Hin.
Qed.

(** *** The constructor *)

Lemma range_lookup {V} (m : gmap string V) name v :
  (name, v) ∈ range m <-> m !! name = Some v.
Proof. rewrite (range_perm _ m). apply elem_of_map_to_list. Qed.

Lemma range_NoDup {V} (m : gmap string V) : NoDup (range m).*1.
Proof. rewrite (range_perm _ m). apply NoDup_fst_map_to_list. Qed.

Section Constructor.

Context {TLSJSONConf TLSConfig : Type}.
Variable NewTLSConfig : TLSJSONConf -> Error + TLSConfig.
Variable isDBSerializable : bool.

Lemma parseTLSConfigs_inl entries acc e :
  parseTLSConfigs NewTLSConfig entries acc = inl e ->
  exists name c, (name, c) ∈ entries /\ NewTLSConfig c = inl e.
Proof.
  revert acc. induction entries as [| [name c] entries IH]; intros acc H; [done |].
  cbn in H. destruct (NewTLSConfig c) as [err | t] eqn:Hc.
  - injection H as ->. exists name, c. split; [left | done].
  - apply IH in H as (name' & c' & Hin & Hc'). exists name', c'. split; [by right | done].
Qed.

Lemma parseTLSConfigs_fails entries acc name c e :
  (name, c) ∈ entries -> NewTLSConfig c = inl e ->
  exists e', parseTLSConfigs NewTLSConfig entries acc = inl e'.
Proof.
  revert acc. induction entries as [| [name' c'] entries IH]; intros acc Hin Hc.
  { by apply elem_of_nil in Hin. }
  cbn. destruct (NewTLSConfig c') as [err | t] eqn:Hc'; [eauto |].
  apply elem_of_cons in Hin as [[= -> ->] | Hin]; [congruence |].
  by apply IH.
Qed.

Lemma parseTLSConfigs_inr entries acc m :
  NoDup entries.*1 ->
  parseTLSConfigs NewTLSConfig entries acc = inr m ->
  (forall name c, (name, c) ∈ entries ->
     exists t, NewTLSConfig c = inr t /\ m !! name = Some t)
  /\ (forall name, name ∉ entries.*1 -> m !! name = acc !! name).
Proof.
  revert acc. induction entries as [| [name c] entries IH]; intros acc Hnd H.
  { injection H as <-. split; [| done]. intros name c Hin. by apply elem_of_nil in Hin. }
  cbn in H, Hnd. apply NoDup_cons in Hnd as [Hfresh Hnd].
  destruct (NewTLSConfig c) as [err | t] eqn:Hc; [done |].
  destruct (IH _ Hnd H) as [Hall Hrest]. split.
  - intros name' c' [[= -> ->] | Hin]%elem_of_cons.
    + exists t. split; [done |]. rewrite (Hrest _ Hfresh). apply lookup_insert_eq.
    + by apply Hall.
  - intros name' Hnot. cbn in Hnot. apply not_elem_of_cons in Hnot as [Hne Hnot].
    rewrite (Hrest _ Hnot). by apply lookup_insert_ne.
Qed.

(** C8.  [NewEventStreamManager] panics when the configuration type is not
    DB serializable; otherwise it returns an error and no manager when the
    retry configuration is absent, when a named TLS configuration does not
    parse, or when initialization fails; a manager is returned only when the
    type is serializable, the retry configuration is present, every TLS
    configuration parsed and initialization succeeded. *)
Theorem NewEventStreamManager_outcomes (cfg : Config TLSJSONConf) (w : World) :
  (isDBSerializable = false ->
     exists msg, NewEventStreamManager NewTLSConfig isDBSerializable cfg w = (Panic msg, w))
  /\ (isDBSerializable = true -> Retry cfg = None ->
      NewEventStreamManager NewTLSConfig isDBSerializable cfg w
      = (Err MsgESConfigNotInitialized, w))
  /\ (isDBSerializable = true -> is_Some (Retry cfg) ->
      forall name c e, TLSConfigs cfg !! name = Some c -> NewTLSConfig c = inl e ->
      exists e', NewEventStreamManager NewTLSConfig isDBSerializable cfg w = (Err e', w))
  /\ (isDBSerializable = true -> is_Some (Retry cfg) ->
      (forall name c, TLSConfigs cfg !! name = Some c -> exists t, NewTLSConfig c = inr t) ->
      forall e w', initialize (withStreams ∅ w) = (Err e, w') ->
      NewEventStreamManager NewTLSConfig isDBSerializable cfg w = (Err e, w'))
  /\ (forall esm w',
        NewEventStreamManager NewTLSConfig isDBSerializable cfg w = (Ok esm, w') ->
        isDBSerializable = true
        /\ is_Some (Retry cfg)
        /\ (forall name c, TLSConfigs cfg !! name = Some c ->
              exists t, NewTLSConfig c = inr t /\ tlsConfigs esm !! name = Some t)
        /\ initialize (withStreams ∅ w) = (Ok tt, w')
        /\ config esm = cfg).
Proof.
  unfold NewEventStreamManager.
  split; [| split; [| split; [| split]]].
  - intros ->. cbn. eauto.
  - by intros -> ->.
  - intros -> [r Hr] name c e Hc He. cbn. rewrite Hr.
    apply range_lookup in Hc.
    destruct (parseTLSConfigs_fails _ ∅ _ _ _ Hc He) as [e' ->]. eauto.
  - intros -> [r Hr] Hall e w' Hinit. cbn. rewrite Hr.
    destruct (parseTLSConfigs _ _ _) as [err | tls] eqn:Hparse.
    { apply parseTLSConfigs_inl in Hparse as (name & c & Hin & Hc).
      apply range_lookup in Hin. destruct (Hall _ _ Hin) as [t Ht]. congruence. }
    rewrite (bind_ok _ _ _ tt (withStreams ∅ w)) by done.
    unfold bind. by rewrite Hinit.
  - intros esm w' H. destruct isDBSerializable; [| done]. cbn in H.
    destruct (Retry cfg) as [r |] eqn:Hr; [| done].
    destruct (parseTLSConfigs _ _ _) as [err | tls] eqn:Hparse; [done |].
    apply bind_Ok_inv in H as ([] & w1 & [= <-] & H).
    apply bind_Ok_inv in H as ([] & w2 & Hinit & [= <- <-]).
    split; [done |]. split; [done |]. split; [| done].
    intros name c Hc. apply range_lookup in Hc.
    by apply (parseTLSConfigs_inr _ _ _ (range_NoDup _) Hparse).
Qed.

End Constructor.

(** *** Startup over a table without deleted rows *)

Lemma initializePage_materialises ps rows (w w' : World) :
  Forall2 (fun p r => specObjs w !! p = Some r) ps rows ->
  Forall (fun r => Status r <> Some EventStreamStatusDeleted) rows ->
  initializePage ps w = (Ok tt, w') ->
  esTable w' = esTable w
  /\ (forall id, is_Some (streams w !! id) -> is_Some (streams w' !! id))
  /\ Forall (registered w') rows.
Proof.
  revert rows w. induction ps as [| p ps IH]; intros rows w Hrows Hlive H.
  { apply Forall2_nil_inv_l in Hrows as ->. injection H as <-. done. }
  apply Forall2_cons_inv_l in Hrows as (r & rows' & Hp & Hrows & ->).
  apply Forall_cons in Hlive as [Hr Hlive].
  cbn in H. rewrite (bind_ok _ _ _ _ _ (deref_ok specObjs _ _ _ Hp)) in H.
  destruct (Status r) as [st |] eqn:Hst; [| done].
  apply bind_Ok_inv in H as ([] & w1 & Hact & H).
  rewrite bool_decide_eq_false_2 in Hact by congruence.
  apply bind_Ok_inv in Hact as (es & w2 & Hinit & Hadd).
  apply initEventStream_Ok in Hinit as (s & Hs & -> & ->).
  rewrite Hp in Hs. injection Hs as <-.
  apply addStream_Ok in Hadd as (e & s' & name & He & Hs' & _ & ->).
  cbn in He, Hs'. rewrite lookup_app_r, Nat.sub_diag in He by done. cbn in He.
  assert (spec e = p) as Hsp by (destruct (bool_decide _); by injection He as <-).
  rewrite Hsp, Hp in Hs'. injection Hs' as <-.
  eapply IH in H as (Htbl & Hmono & Hreg); [| exact Hrows | done].
  split; [done |]. split.
  - intros id Hid. apply Hmono. cbn.
    destruct (decide (GetID r = id)) as [-> | Hne].
    + by rewrite lookup_insert_eq.
    + by rewrite lookup_insert_ne.
  - constructor; [| done]. apply Hmono. cbn. by rewrite lookup_insert_eq.
Qed.

Lemma page_nil_drop {A} skip (l : list A) : take pageSize (drop skip l) = [] -> drop skip l = [].
Proof. unfold pageSize. by destruct (drop skip l). Qed.

Lemma initializeFrom_materialises fuel skip (w w' : World) :
  Forall (fun r => Status r <> Some EventStreamStatusDeleted) (esTable w) ->
  initializeFrom fuel skip w = (Ok tt, w') ->
  esTable w' = esTable w
  /\ (forall id, is_Some (streams w !! id) -> is_Some (streams w' !! id))
  /\ Forall (registered w') (drop skip (esTable w)).
Proof.
  revert skip w. induction fuel as [| fuel IH]; intros skip w Hlive H; [done |].
  cbn in H. apply bind_Ok_inv in H as ([ps fr] & w1 & Hget & H).
  apply GetMany_Ok in Hget as [-> ->]. cbn in H. rewrite filter_all in H.
  remember (page skip pageSize (esTable w)) as rows eqn:Hrows.
  pose proof (newSpecs_lookup (specObjs w) rows) as Hps.
  destruct (seq (length (specObjs w)) (length rows)) as [| p ps] eqn:Hseq.
  { unfold ret in H. injection H as <-. apply Forall2_nil_inv_l in Hps as ->.
    split; [done |]. split; [done |].
    symmetry in Hrows. apply page_nil_drop in Hrows. rewrite Hrows. constructor. }
  apply bind_Ok_inv in H as ([] & w2 & Hpage & H).
  assert (Hsub : Forall (fun r => Status r <> Some EventStreamStatusDeleted) rows).
  { rewrite Forall_forall in Hlive |- *. intros r Hr. apply Hlive.
    rewrite Hrows in Hr. unfold page, pageSize in Hr.
    by apply subseteq_take, subseteq_drop in Hr. }
  apply initializePage_materialises with (rows := rows) in Hpage
    as (Htbl1 & Hmono1 & Hreg1); [| done | done].
  cbn in Htbl1.
  apply IH in H as (Htbl2 & Hmono2 & Hreg2); [| by rewrite Htbl1].
  split; [congruence |]. split; [intros id Hid; by apply Hmono2, Hmono1 |].
  rewrite <- (take_drop pageSize (drop skip (esTable w))).
  apply Forall_app. split.
  - unfold page, pageSize in Hrows. unfold pageSize. rewrite <- Hrows.
    eapply Forall_impl; [exact Hreg1 |]. intros r. by apply Hmono2.
  - rewrite drop_drop. by rewrite Htbl1 in Hreg2.
Qed.

Lemma initialize_materialises_without_purge (w w' : World) :
  Forall (fun r => Status r <> Some EventStreamStatusDeleted) (esTable w) ->
  initialize w = (Ok tt, w') ->
  esTable w' = esTable w /\ Forall (registered w') (esTable w).
Proof.
  unfold initialize. intros Hlive H.
  apply bind_Ok_inv in H as (n & w1 & [= <- <-] & H).
  apply initializeFrom_materialises in H as (Htbl & _ & Hreg); done.
Qed.

(** *** Lifecycle calls on a stream that is not registered *)

(** X1.  [DeleteStream], [StopStream], [ResetStream] and [StartStream] look
    the stream up in the registry only: for an ID without a registry entry
    each returns [Msg404NoResult] and calls neither persistence nor a stream,
    also when a row with that ID is persisted. *)
Theorem unregistered_stream_is_not_found (w : World) id sequenceID :
  streams w !! id = None ->
  DeleteStream id w = (Err Msg404NoResult, w)
  /\ StopStream id w = (Err Msg404NoResult, w)
  /\ ResetStream id sequenceID w = (Err Msg404NoResult, w)
  /\ StartStream id w = (Err Msg404NoResult, w).
Proof.
  intros Hid. unfold DeleteStream, StopStream, ResetStream, StartStream.
  mrun. by rewrite Hid.
Qed.

(** *** Who writes the registry *)

#[local] Arguments stop : simpl never.
#[local] Arguments delete_ : simpl never.

Lemma suspend_keeps_streams es : always (keeps streams) (suspend es).
Proof. unfold suspend, updateStream. frame. Qed.

Lemma start_keeps_streams es : always (keeps streams) (start es).
Proof. unfold start, updateStream. frame. Qed.

Lemma UpdateSparse_keeps_streams partial : always (keeps streams) (UpdateSparse partial).
Proof. unfold UpdateSparse. frame. Qed.

Lemma DeleteCheckpoints_keeps_streams id : always (keeps streams) (DeleteCheckpoints id).
Proof. unfold DeleteCheckpoints. frame. Qed.

Lemma Delete_keeps_streams id : always (keeps streams) (Delete id).
Proof. unfold Delete. frame. Qed.

Lemma GetMany_keeps_streams filter : always (keeps streams) (GetMany filter).
Proof. unfold GetMany, newSpecs. frame. Qed.

Lemma GetByID_keeps_streams id opts : always (keeps streams) (GetByID id opts).
Proof. unfold GetByID, newSpecs. frame. Qed.

#[local] Hint Resolve suspend_keeps_streams start_keeps_streams UpdateSparse_keeps_streams
  DeleteCheckpoints_keeps_streams Delete_keeps_streams GetMany_keeps_streams
  GetByID_keeps_streams : frame.

Lemma stop_keeps_streams es : always (keeps streams) (stop es).
Proof. unfold stop, updateSpec. frame. Qed.

Lemma delete_keeps_streams es : always (keeps streams) (delete_ es).
Proof. unfold delete_, updateSpec, updateStream. frame. Qed.

Lemma enrichAll_keeps_streams ps : always (keeps streams) (enrichAll ps).
Proof.
  induction ps as [| p ps IH]; cbn; [frame |].
  apply always_bind; [typeclasses eauto | by apply enrichGetStream_keeps |].
  intros e. frame.
Qed.

Lemma closeStreams_keeps_streams entries : always (keeps streams) (closeStreams entries).
Proof. induction entries as [| [id es] entries IH]; cbn; frame. Qed.

#[local] Hint Resolve stop_keeps_streams delete_keeps_streams enrichAll_keeps_streams
  closeStreams_keeps_streams : frame.

(** X2.  The registry is written by [UpsertStream], [DeleteStream] and startup
    only: whatever their outcome, [StartStream], [StopStream], [ResetStream],
    [ListStreams], [GetStreamByID] and [Close] leave every registry entry as
    it was.  In particular [Close] suspends the streams and keeps them
    registered. *)
Theorem registry_kept_by_lifecycle_and_reads id sequenceID filter opts :
  always (keeps streams) (StartStream id)
  /\ always (keeps streams) (StopStream id)
  /\ always (keeps streams) (ResetStream id sequenceID)
  /\ always (keeps streams) (ListStreams filter)
  /\ always (keeps streams) (GetStreamByID id opts)
  /\ always (keeps streams) Close.
Proof.
  repeat split.
  - unfold StartStream, getStream. frame.
  - unfold StopStream, getStream. frame.
  - unfold ResetStream, getStream, updateSpec. frame.
  - unfold ListStreams. frame.
  - unfold GetStreamByID.
    apply always_bind; [typeclasses eauto | frame |].
    intros p. by apply enrichGetStream_keeps.
  - unfold Close. frame.
Qed.

(** *** What an upsert leaves behind *)

Lemma ensureActive_Ok es (w w1 : World) :
  ensureActive es w = (Ok tt, w1) ->
  exists e, esObjs w !! es = Some e
    /\ w1 = withEsObjs (<[es := activate e]> (esObjs w))
              (withTrace (trace w ++ [EvEnsureActive es]) w).
Proof.
  unfold ensureActive. intros H. mrun_in H. cases_in H.
  injection H as <-. eexists. split; [done |]. mrun; world_eq.
Qed.

Lemma Upsert_Ok p (w : World) isNew w1 :
  Upsert p w = (Ok isNew, w1) ->
  exists row, specObjs w !! p = Some row
    /\ isNew = negb (existsb (hasID (GetID row)) (esTable w))
    /\ w1 = withTable (upsertRow row (esTable w)) (afterCall [EvUpsert row (inr isNew)] w).
Proof.
  unfold Upsert, afterCall. intros H. mrun_in H. cases_in H;
    simplify_eq; eexists; (split; [done |]); (split; [done |]); mrun; world_eq.
Qed.

Lemma insert_last {A} (l : list A) (x y : A) : <[length l := y]> (l ++ [x]) = l ++ [y].
Proof. by rewrite <- (Nat.add_0_r (length l)), insert_app_r. Qed.

Lemma lookup_last {A} (l : list A) (x : A) : (l ++ [x]) !! length l = Some x.
Proof. by rewrite lookup_app_r, Nat.sub_diag. Qed.

Lemma length_quiesced existing (objs : list eventStream) :
  length (quiesced existing objs) = length objs.
Proof.
  unfold quiesced. destruct existing as [ex |]; [| done].
  destruct (objs !! ex); [by rewrite length_insert | done].
Qed.

Lemma quiesce_state e : state (quiesce e) <> Starting /\ state (quiesce e) <> Running.
Proof. unfold quiesce. destruct e as [sp []]; cbn; split; congruence. Qed.

Lemma quiesced_lookup ex (objs : list eventStream) e :
  objs !! ex = Some e -> quiesced (Some ex) objs = <[ex := quiesce e]> objs.
Proof. unfold quiesced. by intros ->. Qed.

(** What [reInit] has done when it returns without error. *)
Lemma reInit_Ok p existing (w w' : World) :
  reInit p existing w = (Ok tt, w') ->
  exists s name,
    specObjs w !! p = Some s /\ Name s = Some name /\ is_Some (Status s)
    /\ (forall ex, existing = Some ex -> is_Some (esObjs w !! ex))
    /\ specObjs w' = specObjs w /\ esTable w' = esTable w /\ cpTable w' = cpTable w
    /\ streams w' = <[GetID s := length (esObjs w)]> (streams w)
    /\ esObjs w' = quiesced existing (esObjs w) ++ [mkStream p (builtState (Status s))]
    /\ trace w' = trace w
         ++ match existing with
            | Some ex => [EvSuspend ex; EvSuspended ex None]
            | None => []
            end
         ++ [EvInitEventStream p s (inr (length (esObjs w)));
             EvLog (LogAddingStream name (GetID s) (statusOf (builtState (Status s))))]
         ++ (if bool_decide (Status s = Some EventStreamStatusStarted)
             then [EvEnsureActive (length (esObjs w))] else []).
Proof.
  unfold reInit. intros H.
  apply bind_Ok_inv in H as ([] & w1 & Hsus & H).
  assert (Hw1 : specObjs w1 = specObjs w /\ esTable w1 = esTable w /\ cpTable w1 = cpTable w
                /\ streams w1 = streams w
                /\ esObjs w1 = quiesced existing (esObjs w)
                /\ (forall ex, existing = Some ex -> is_Some (esObjs w !! ex))
                /\ trace w1 = trace w ++ match existing with
                                         | Some ex => [EvSuspend ex; EvSuspended ex None]
                                         | None => []
                                         end).
  { destruct existing as [ex |].
    - apply suspend_Ok in Hsus as (e & He & ->). cbn. rewrite He.
      repeat split; try done. intros ? [= <-]. eauto.
    - injection Hsus as <-. cbn. by rewrite app_nil_r. }
  destruct Hw1 as (Ho1 & Ht1 & Hc1 & Hs1 & He1 & Hex & Htr1). clear Hsus.
  apply bind_Ok_inv in H as (es & w2 & Hinit & H).
  apply initEventStream_Ok in Hinit as (s & Hs & -> & ->).
  apply bind_Ok_inv in H as ([] & w3 & Hadd & H).
  apply addStream_Ok in Hadd as (e & s' & name & He & Hs' & Hname & ->).
  cbn in He, Hs'. rewrite lookup_last in He. injection He as <-.
  assert (spec (if bool_decide (Status s = Some EventStreamStatusStarted)
                then activate (mkStream p Created) else mkStream p Created) = p) as Hsp
    by (by destruct (bool_decide _)).
  rewrite Hsp in *. rewrite Hs in Hs'. injection Hs' as <-.
  apply bind_Ok_inv in H as (e & w4 & Hde & H).
  apply deref_Ok in Hde as [He ->]. cbn in He. rewrite lookup_last in He. injection He as <-.
  rewrite Hsp in H.
  apply bind_Ok_inv in H as (s' & w4 & Hde & H).
  apply deref_Ok in Hde as [Hs' ->]. cbn in Hs'. rewrite Hs in Hs'. injection Hs' as <-.
  rewrite Ho1 in Hs.
  exists s, name. split; [done |]. split; [done |].
  destruct (Status s) as [st |] eqn:Hst; [| done]. split; [eauto |]. split; [done |].
  unfold builtState.
  destruct (decide (st = EventStreamStatusStarted)) as [-> | Hne].
  - rewrite !bool_decide_eq_true_2 in * by done.
    apply ensureActive_Ok in H as (e & He & ->). cbn in He |- *.
    rewrite lookup_last in He. injection He as <-.
    rewrite insert_last, Ho1, Ht1, Hc1, Hs1, He1, Htr1, length_quiesced.
    repeat split; try done. by rewrite <- !app_assoc.
  - rewrite bool_decide_eq_false_2 in H by done.
    injection H as <-. cbn.
    rewrite !(bool_decide_eq_false_2 (Some st = _)) by congruence. cbn.
    rewrite Ho1, Ht1, Hc1, Hs1, He1, Htr1, length_quiesced.
    repeat split; try done. by rewrite <- !app_assoc.
Qed.

Lemma added_app (w w' : World) tr : trace w' = trace w ++ tr -> added w w' = tr.
Proof. unfold added. intros ->. by rewrite drop_app_length. Qed.

Lemma upsertRow_elem (row : Spec) rows : row ∈ upsertRow row rows.
Proof.
  unfold upsertRow. destruct (existsb _ rows) eqn:Hex.
  - apply existsb_exists in Hex as (r & Hr & Hid).
    apply list_elem_of_fmap. exists r. rewrite Hid. split; [done | by apply list_elem_of_In].
  - apply elem_of_app. right. left.
Qed.

Lemma upsertRow_same_id (row r : Spec) rows :
  r ∈ upsertRow row rows -> GetID r = GetID row -> r = row.
Proof.
  unfold upsertRow. destruct (existsb _ rows) eqn:Hex; intros Hin Hid.
  - apply list_elem_of_fmap in Hin as (r' & -> & Hr').
    destruct (hasID (GetID row) r') eqn:Hr; [done |].
    apply bool_decide_eq_false in Hr. done.
  - apply elem_of_app in Hin as [Hin | Hin%list_elem_of_singleton]; [| done].
    exfalso. apply not_true_iff_false in Hex. apply Hex, existsb_exists.
    exists r. split; [by apply list_elem_of_In | by apply bool_decide_eq_true].
Qed.


Lemma upsertRow_again (row : Spec) rows : upsertRow row (upsertRow row rows) = upsertRow row rows.
Proof.
  assert (Hex : existsb (hasID (GetID row)) (upsertRow row rows) = true).
  { apply existsb_exists. exists row.
    split; [apply list_elem_of_In, upsertRow_elem | by apply bool_decide_eq_true]. }
  unfold upsertRow at 1. rewrite Hex.
  rewrite <- (map_id (upsertRow row rows)) at 2. apply map_ext_in.
  intros r Hr%list_elem_of_In. destruct (hasID (GetID row) r) eqn:Hid; [| done].
  apply bool_decide_eq_true in Hid. symmetry. by eapply upsertRow_same_id.
Qed.

Lemma prepared_again (w w1 : World) (s : Spec) :
  noID (prepared w s) = false -> prepared w1 (prepared w s) = prepared w s.
Proof.
  intros Hid. unfold prepared at 1. rewrite Hid.
  destruct (prepared_fields w s) as (_ & Hst & _). rewrite Hst. cbn.
  apply setStatus_same. done.
Qed.

Lemma initEventStream_no_failed_suspend p :
  always (emitsOnly (fun e => ~ isFailedSuspend e)) (initEventStream p).
Proof. unfold initEventStream, newStream. frame. Qed.

Lemma addStream_no_failed_suspend es :
  always (emitsOnly (fun e => ~ isFailedSuspend e)) (addStream es).
Proof. unfold addStream, liveStatus. frame. Qed.

Lemma ensureActive_no_failed_suspend es :
  always (emitsOnly (fun e => ~ isFailedSuspend e)) (ensureActive es).
Proof. unfold ensureActive. frame. Qed.

#[local] Hint Resolve initEventStream_no_failed_suspend addStream_no_failed_suspend
  ensureActive_no_failed_suspend : frame.

(** The three ways [suspend] can end. *)
Lemma suspend_outcomes es (w : World) out w1 :
  suspend es w = (out, w1) ->
  (out = Ok tt /\ trace w1 = trace w ++ [EvSuspend es; EvSuspended es None])
  \/ (exists e, out = Err e
        /\ w1 = afterCall [EvSuspend es; EvSuspended es (Some e)] w)
  \/ (exists msg, out = Panic msg /\ trace w1 = trace w ++ [EvSuspend es]).
Proof.
  unfold suspend, afterCall. intros H. mrun_in H.
  destruct (faults w) as [| [cause |] rest] eqn:Hf; cbn in H.
  - destruct (esObjs w !! es); injection H as <- <-; cbn.
    + left. by rewrite <- app_assoc.
    + right. right. eauto.
  - injection H as <- <-. right. left. eexists. split; [done |]. mrun.
    rewrite <- app_assoc. world_eq.
  - destruct (esObjs w !! es); injection H as <- <-; cbn.
    + left. by rewrite <- app_assoc.
    + right. right. eauto.
Qed.

(** A failed suspend in the trace of [reInit] is that of the existing
    stream, and ends the call. *)
Lemma reInit_failed_suspend p existing (w : World) out w' ex err :
  reInit p existing w = (out, w') ->
  EvSuspended ex (Some err) ∈ added w w' ->
  existing = Some ex /\ out = Err err
  /\ w' = afterCall [EvSuspend ex; EvSuspended ex (Some err)] w.
Proof.
  unfold reInit. intros H Hin.
  set (rest := (let* es := initEventStream p in _)) in H.
  assert (Hrest : always (emitsOnly (fun e => ~ isFailedSuspend e)) rest).
  { subst rest. frame. }
  assert (Hno : forall (w1 : World) tr,
            trace w1 = trace w ++ tr -> Forall (fun e => ~ isFailedSuspend e) tr ->
            forall o, rest w1 = (o, w') -> False).
  { intros w1 tr Htr Htr1 o Hr. apply Hrest in Hr as (tr2 & Htr2 & Hall).
    rewrite (added_app w w' (tr ++ tr2)) in Hin by (by rewrite Htr2, Htr, app_assoc).
    apply elem_of_app in Hin as [Hin | Hin].
    - rewrite Forall_forall in Htr1. by apply (Htr1 _ Hin).
    - rewrite Forall_forall in Hall. by apply (Hall _ Hin). }
  unfold bind at 1 in H.
  destruct existing as [ex' |]; cycle 1.
  { exfalso. cbn in H. eapply (Hno w []); [by rewrite app_nil_r | constructor | exact H]. }
  destruct (suspend ex' w) as [o w1] eqn:Hsus.
  apply suspend_outcomes in Hsus as [[-> Htr] | [(e & -> & ->) | (msg & -> & Htr)]].
  - exfalso. eapply (Hno w1); [exact Htr | | exact H].
    repeat constructor; cbn; tauto.
  - injection H as <- <-.
    rewrite (added_app w _ [EvSuspend ex'; EvSuspended ex' (Some e)]) in Hin by done.
    apply elem_of_cons in Hin as [[=] | Hin].
    apply list_elem_of_singleton in Hin as [= -> ->]. done.
  - injection H as <- <-.
    rewrite (added_app w _ [EvSuspend ex']) in Hin by done.
    by apply list_elem_of_singleton in Hin.
Qed.

Section UpsertOutcomes.

Context {TLSJSONConf TLSConfig : Type}.
Variable validName : string -> bool.

(** [UpsertStream] up to the status check: the caller's spec is prepared, the
    registry has been read when the spec came with an ID, nothing else has
    changed. *)
Lemma UpsertStream_steps (esm : esManager TLSJSONConf TLSConfig) p w s :
  specObjs w !! p = Some s ->
  exists w2,
    UpsertStream validName esm p w =
      (if negb (bool_decide (default EventStreamStatusStarted (Status s) = EventStreamStatusStarted)) &&
          negb (bool_decide (default EventStreamStatusStarted (Status s) = EventStreamStatusStopped))
       then fail MsgESStartedOrStopped
       else validateStream validName esm p false ;;
            let* isNew := Upsert p in
            reInit p (if noID s then None else streams w !! GetID s) ;;
            ret isNew) w2
    /\ specObjs w2 = <[p := prepared w s]> (specObjs w)
    /\ esTable w2 = esTable w /\ cpTable w2 = cpTable w
    /\ streams w2 = streams w /\ esObjs w2 = esObjs w /\ faults w2 = faults w
    /\ trace w2 = trace w ++ (if noID s then [EvNewID (NewID (idsIssued w))] else []).
Proof.
  intros Hp.
  assert (Hlt : p < length (specObjs w)) by (eapply lookup_lt_Some; eauto).
  unfold UpsertStream, prepared. mrun. rewrite Hp.
  destruct (noID s) eqn:Hid; destruct (Status s) as [st|] eqn:Hst;
    repeat (progress (mrun; rewrite ?Hp, ?Hst, ?list_lookup_insert_eq
                        by (rewrite ?length_insert; done))).
  - eexists. split; [rewrite ?bool_decide_eq_true_2 by done; cbn; reflexivity |]. cbn.
    rewrite setStatus_same by done. done.
  - eexists. split; [rewrite ?bool_decide_eq_true_2 by done; cbn; reflexivity |]. cbn.
    rewrite list_insert_insert_eq. done.
  - eexists. split; [rewrite ?bool_decide_eq_true_2 by done; cbn; reflexivity |]. cbn.
    rewrite setStatus_same, list_insert_id, app_nil_r by done. done.
  - eexists. split; [rewrite ?bool_decide_eq_true_2 by done; cbn; reflexivity |]. cbn.
    by rewrite app_nil_r.
Qed.

(** What [UpsertStream] has done when it returns without error. *)
Lemma UpsertStream_Ok (esm : esManager TLSJSONConf TLSConfig) p w s isNew w' :
  specObjs w !! p = Some s ->
  UpsertStream validName esm p w = (Ok isNew, w') ->
  exists name,
    Name s = Some name
    /\ isNew = negb (existsb (hasID (GetID (prepared w s))) (esTable w))
    /\ specObjs w' = <[p := prepared w s]> (specObjs w)
    /\ esTable w' = upsertRow (prepared w s) (esTable w)
    /\ cpTable w' = cpTable w
    /\ streams w' = <[GetID (prepared w s) := length (esObjs w)]> (streams w)
    /\ esObjs w' = quiesced (if noID s then None else streams w !! GetID s) (esObjs w)
                    ++ [mkStream p (builtState (Status (prepared w s)))]
    /\ trace w' = trace w
         ++ (if noID s then [EvNewID (NewID (idsIssued w))] else [])
         ++ [EvUpsert (prepared w s) (inr isNew)]
         ++ match (if noID s then None else streams w !! GetID s) with
            | Some ex => [EvSuspend ex; EvSuspended ex None]
            | None => []
            end
         ++ [EvInitEventStream p (prepared w s) (inr (length (esObjs w)));
             EvLog (LogAddingStream name (GetID (prepared w s))
                      (statusOf (builtState (Status (prepared w s)))))]
         ++ (if bool_decide (Status (prepared w s) = Some EventStreamStatusStarted)
             then [EvEnsureActive (length (esObjs w))] else []).
Proof.
  intros Hp Hrun.
  assert (Hlt : p < length (specObjs w)) by (eapply lookup_lt_Some; eauto).
  destruct (UpsertStream_steps esm p w s Hp)
    as (w2 & Heq & Hobjs & Htbl & Hcp & Hstr & Hes & _ & Htr).
  rewrite Heq in Hrun. clear Heq.
  destruct (_ && _) in Hrun; [done |].
  apply bind_Ok_inv in Hrun as ([] & w3 & Hv & Hrun).
  apply validateStream_false_quiet in Hv. rewrite Hv in *. clear Hv w3.
  apply bind_Ok_inv in Hrun as (b & w4 & Hup & Hrun).
  apply Upsert_Ok in Hup as (row & Hrow & Hb & ->).
  rewrite Hobjs, list_lookup_insert_eq in Hrow by done. injection Hrow as <-.
  apply bind_Ok_inv in Hrun as ([] & w5 & Hre & [= <- <-]).
  apply reInit_Ok in Hre
    as (s' & name & Hs' & Hname & _ & _ & Ho' & Ht' & Hc' & Hst' & He' & Htr').
  cbn in Hs', Ho', Ht', Hc', Hst', He', Htr'.
  rewrite Hobjs, list_lookup_insert_eq in Hs' by done. injection Hs' as <-.
  destruct (prepared_fields w s) as (_ & _ & Hn & _).
  exists name. rewrite Hn in Hname. split; [done |].
  rewrite Htbl in Hb. split; [done |].
  rewrite Ho', Ht', Hc', Hst', He', Htr', Hobjs, Htbl, Hcp, Hstr, Hes, Htr.
  repeat split; try done. by rewrite <- !app_assoc.
Qed.

Lemma validateStream_false_outcome (esm : esManager TLSJSONConf TLSConfig) p (w : World) s :
  specObjs w !! p = Some s ->
  validateStream validName esm p false w = (Ok tt, w)
  \/ exists e, validateStream validName esm p false w = (Err e, w).
Proof.
  intros Hp. unfold validateStream. mrun. rewrite Hp.
  repeat match goal with
         | |- context [match ?x with _ => _ end] => destruct x; cbn; eauto
         end.
Qed.

Lemma upsertRow_ids_existing (row : Spec) rows :
  existsb (hasID (GetID row)) rows = true ->
  GetID <$> upsertRow row rows = GetID <$> rows.
Proof.
  intros Hex. unfold upsertRow. rewrite Hex.
  change (map ?f rows) with (f <$> rows). rewrite <- list_fmap_compose.
  apply list_fmap_ext. intros i r _. cbn.
  destruct (hasID (GetID row) r) eqn:Hr; [| done].
  apply bool_decide_eq_true in Hr. done.
Qed.



(** X4.  [UpsertStream] persists before it touches a stream: as long as the
    call has made no successful [Upsert], it has changed neither the spec
    table, the checkpoints, the registry nor any stream object, and it ends
    in an error (that of the status check, of the validation or of the
    persistence layer).  Only the caller's spec has been written to. *)
Theorem UpsertStream_persists_first (esm : esManager TLSJSONConf TLSConfig) p w s out w' :
  specObjs w !! p = Some s ->
  UpsertStream validName esm p w = (out, w') ->
  (forall row isNew, EvUpsert row (inr isNew) ∉ added w w') ->
  (exists e, out = Err e)
  /\ esTable w' = esTable w /\ cpTable w' = cpTable w
  /\ streams w' = streams w /\ esObjs w' = esObjs w.
Proof.
  intros Hp Hrun Hnone.
  assert (Hlt : p < length (specObjs w)) by (eapply lookup_lt_Some; eauto).
  destruct (UpsertStream_steps esm p w s Hp)
    as (w2 & Heq & Hobjs & Htbl & Hcp & Hstr & Hes & _ & Htr).
  rewrite Heq in Hrun. clear Heq.
  assert (Hp2 : specObjs w2 !! p = Some (prepared w s))
    by (by rewrite Hobjs, list_lookup_insert_eq).
  destruct (_ && _) in Hrun.
  { injection Hrun as <- <-. eauto 10. }
  unfold bind at 1 in Hrun.
  destruct (validateStream_false_outcome esm p w2 _ Hp2) as [Hv | [e Hv]]; rewrite Hv in Hrun;
    [| injection Hrun as <- <-; eauto 10].
  destruct (Upsert_spec p _ w2 Hp2) as (res & w3 & Hup & Htr3 & _ & Hes3 & Hstr3 & Hcp3 & Hres).
  unfold bind at 1 in Hrun. rewrite Hup in Hrun.
  destruct res as [e | b].
  { injection Hrun as <- <-. split; [eauto |]. repeat split; congruence. }
  exfalso.
  assert (Hrest : emitsOnly (fun e => ~ isUpsert e) w3 w').
  { revert Hrun. generalize w3 out w'.
    change (always (emitsOnly (fun e => ~ isUpsert e))
              (reInit p (if noID s then None else streams w !! GetID s) ;; ret b)).
    apply always_bind; [typeclasses eauto | apply reInit_no_upsert | intros; frame]. }
  destruct Hrest as (tr & Htr' & _).
  apply (Hnone (prepared w s) b).
  erewrite added_app; cycle 1.
  { rewrite Htr', Htr3, Htr, <- !app_assoc. reflexivity. }
  rewrite !elem_of_app. right. left. left.
Qed.

(** X5.  When the suspend of the stream registered under the spec's ID fails,
    [UpsertStream] returns that error with the spec already persisted: the
    spec came with an ID of its own, the table holds the new row, the
    registry is as it was, so that it still holds the stream built from the
    earlier spec, and no stream object has been created. *)
Theorem UpsertStream_failed_suspend (esm : esManager TLSJSONConf TLSConfig)
    p w s out w' ex err :
  specObjs w !! p = Some s ->
  UpsertStream validName esm p w = (out, w') ->
  EvSuspended ex (Some err) ∈ added w w' ->
  out = Err err
  /\ (exists id, ID s = Some id /\ id <> "" /\ streams w !! id = Some ex)
  /\ esTable w'
     = upsertRow (setStatus (Some (default EventStreamStatusStarted (Status s))) s) (esTable w)
  /\ streams w' = streams w
  /\ length (esObjs w') = length (esObjs w).
Proof.
  intros Hp Hrun Hin.
  assert (Hlt : p < length (specObjs w)) by (eapply lookup_lt_Some; eauto).
  destruct (UpsertStream_steps esm p w s Hp)
    as (w2 & Heq & Hobjs & Htbl & Hcp & Hstr & Hes & _ & Htr).
  rewrite Heq in Hrun. clear Heq.
  assert (Hp2 : specObjs w2 !! p = Some (prepared w s))
    by (by rewrite Hobjs, list_lookup_insert_eq).
  set (tr0 := if noID s then [EvNewID (NewID (idsIssued w))] else []) in *.
  assert (H0 : EvSuspended ex (Some err) ∉ tr0).
  { subst tr0. destruct (noID s); [| apply not_elem_of_nil].
    by intros [=]%list_elem_of_singleton. }
  destruct (_ && _) in Hrun.
  { injection Hrun as <- <-. by rewrite (added_app w w2 tr0) in Hin. }
  unfold bind at 1 in Hrun.
  destruct (validateStream_false_outcome esm p w2 _ Hp2) as [Hv | [e Hv]]; rewrite Hv in Hrun;
    [| injection Hrun as <- <-; by rewrite (added_app w w2 tr0) in Hin].
  destruct (Upsert_spec p _ w2 Hp2) as (res & w3 & Hup & Htr3 & Ho3 & Hes3 & Hstr3 & Hcp3 & Hres).
  unfold bind at 1 in Hrun. rewrite Hup in Hrun.
  destruct res as [e | b].
  { injection Hrun as <- <-.
    rewrite (added_app w w3 (tr0 ++ [EvUpsert (prepared w s) (inl e)])) in Hin
      by (by rewrite Htr3, Htr, app_assoc).
    apply elem_of_app in Hin as [Hin | [=]%list_elem_of_singleton]. done. }
  destruct Hres as [Htbl3 _].
  unfold bind at 1 in Hrun.
  destruct (reInit p _ w3) as [o w4] eqn:Hre.
  assert (Hin4 : EvSuspended ex (Some err) ∈ added w3 w4).
  { assert (Hw' : trace w' = trace w4).
    { destruct o; injection Hrun as <- <-; done. }
    assert (Hext : exists tr, trace w4 = trace w3 ++ tr).
    { apply reInit_no_upsert in Hre as (tr & Htr4 & _). eauto. }
    destruct Hext as (tr & Htr4).
    rewrite (added_app w w' (tr0 ++ [EvUpsert (prepared w s) (inr b)] ++ tr)) in Hin
      by (by rewrite Hw', Htr4, Htr3, Htr, <- !app_assoc).
    rewrite (added_app w3 w4 tr) by done.
    apply elem_of_app in Hin as [Hin | Hin]; [done |].
    apply elem_of_cons in Hin as [[=] | Hin]. done. }
  destruct (reInit_failed_suspend _ _ _ _ _ _ _ Hre Hin4) as (Hex & -> & ->).
  injection Hrun as <- <-. split; [done |].
  assert (Hprep : noID s = false -> exists id, ID s = Some id /\ id <> ""
                    /\ GetID s = id
                    /\ prepared w s
                       = setStatus (Some (default EventStreamStatusStarted (Status s))) s).
  { intros Hno. unfold prepared. rewrite Hno. unfold noID in Hno.
    destruct (ID s) as [id |] eqn:Hid; [| done].
    apply bool_decide_eq_false in Hno. exists id. unfold GetID. by rewrite Hid. }
  destruct (noID s); [done |].
  destruct (Hprep eq_refl) as (id & Hid & Hne & Hget & Hrow).
  split; [exists id; split; [done |]; split; [done |]; by rewrite <- Hget |].
  cbn. rewrite Htbl3, Htbl, Hstr3, Hstr, Hes3, Hes, Hrow.
  repeat split; done.
Qed.

(** X6.  [UpsertStream] of a spec whose ID is registered does not keep the
    LiveStream, whether or not anything in the spec has changed: when it
    returns without error, the stream that was registered has been
    suspended and is no longer active, and a stream object created by this
    call has its registry entry.  [isNew] is false exactly when the table
    had a row of the ID, and then the table has the same IDs as before; the
    checkpoints are as they were. *)
Theorem UpsertStream_replaces_registered_stream (esm : esManager TLSJSONConf TLSConfig)
    p w s id old isNew w' :
  specObjs w !! p = Some s ->
  ID s = Some id -> id <> "" ->
  streams w !! id = Some old ->
  UpsertStream validName esm p w = (Ok isNew, w') ->
  EvSuspended old None ∈ added w w'
  /\ (exists new, streams w' !! id = Some new /\ old < new
        /\ esObjs w !! new = None /\ is_Some (esObjs w' !! new))
  /\ (exists e e', esObjs w !! old = Some e /\ esObjs w' !! old = Some e'
        /\ state e' <> Starting /\ state e' <> Running)
  /\ (isNew = false <-> exists r, r ∈ esTable w /\ GetID r = id)
  /\ (isNew = false -> tableIDs w' = tableIDs w)
  /\ cpTable w' = cpTable w.
Proof.
  intros Hp Hid Hne Hold Hrun.
  assert (Hno : noID s = false).
  { unfold noID. rewrite Hid. by apply bool_decide_eq_false. }
  assert (Hget : GetID s = id) by (unfold GetID; by rewrite Hid).
  assert (Hprep : GetID (prepared w s) = id).
  { unfold prepared. by rewrite Hno. }
  pose proof Hrun as Hsteps.
  destruct (UpsertStream_steps esm p w s Hp)
    as (w2 & Heq & Hobjs & Htbl & Hcp & Hstr & Hes & _ & Htr).
  rewrite Heq in Hsteps. clear Heq.
  destruct (_ && _) in Hsteps; [done |].
  apply bind_Ok_inv in Hsteps as ([] & w3 & Hv & Hsteps).
  apply validateStream_false_quiet in Hv. rewrite Hv in *. clear Hv w3.
  apply bind_Ok_inv in Hsteps as (b & w4 & Hup & Hsteps).
  apply Upsert_Ok in Hup as (row & _ & _ & ->).
  apply bind_Ok_inv in Hsteps as ([] & w5 & Hre & _).
  apply reInit_Ok in Hre as (_ & _ & _ & _ & _ & Hvalid & _).
  rewrite Hno, Hget, Hold in Hvalid.
  destruct (Hvalid old eq_refl) as [e He]. cbn in He. rewrite Hes in He.
  destruct (UpsertStream_Ok esm p w s isNew w' Hp Hrun)
    as (name & _ & HisNew & _ & Ht & Hc & Hs & Hobj & Htr').
  rewrite Hno, Hget, Hprep in *.
  assert (Hold' : streams w !! id = Some (old : ptr)) by exact Hold.
  rewrite Hold' in Hobj, Htr'.
  rewrite (quiesced_lookup _ _ _ He) in Hobj.
  assert (Hlt : old < length (esObjs w)) by (eapply lookup_lt_Some; eauto).
  split; [| split; [| split; [| split; [| split]]]].
  - erewrite added_app by exact Htr'. cbn. do 2 right. left.
  - exists (length (esObjs w)). split; [rewrite Hs; apply lookup_insert_eq |].
    split; [done |]. split; [by apply lookup_ge_None |].
    apply lookup_lt_is_Some. rewrite Hobj, length_app, length_insert. cbn. lia.
  - exists e, (quiesce e). split; [done |]. split; [| apply quiesce_state].
    rewrite Hobj, lookup_app_l by (by rewrite length_insert).
    by apply list_lookup_insert_eq.
  - rewrite HisNew, negb_false_iff, existsb_exists. split.
    + intros (r & Hr & Hrid). exists r.
      split; [by apply list_elem_of_In | by apply bool_decide_eq_true in Hrid].
    + intros (r & Hr & Hrid). exists r.
      split; [by apply list_elem_of_In | by apply bool_decide_eq_true].
  - rewrite HisNew, negb_false_iff. intros Hex. unfold tableIDs. rewrite Ht.
    apply upsertRow_ids_existing. by rewrite Hprep.
  - done.
Qed.

End UpsertOutcomes.

(** *** DeleteStream *)

Lemma updateSparseRow_ids (partial : Spec) rows :
  GetID <$> updateSparseRow partial rows = GetID <$> rows.
Proof.
  unfold updateSparseRow. rewrite <- list_fmap_compose. apply list_fmap_ext.
  intros i r _. cbn. by destruct (hasID _ r).
Qed.

Lemma deleteRow_updateSparseRow (partial : Spec) rows :
  deleteRow (GetID partial) (updateSparseRow partial rows) = deleteRow (GetID partial) rows.
Proof.
  unfold deleteRow, updateSparseRow.
  assert (Hm : forall r, hasID (GetID partial) (mergeSparse partial r) = hasID (GetID partial) r)
    by done.
  induction rows as [| r rows IH]; [done |]. cbn [map List.filter].
  destruct (hasID (GetID partial) r) eqn:Hr; rewrite ?Hm, Hr; cbn [negb]; by rewrite IH.
Qed.

Lemma deleteRow_ids id (rows : list Spec) :
  Forall (fun r => GetID r <> id) (deleteRow id rows).
Proof.
  apply Forall_forall. intros r [_ Hr]%list_elem_of_In%filter_In.
  apply negb_true_iff, bool_decide_eq_false in Hr. done.
Qed.

Lemma UpdateSparse_keeps_ids partial : always (keeps tableIDs) (UpdateSparse partial).
Proof.
  unfold UpdateSparse. frame.
  apply always_modify. intros w. unfold keeps, tableIDs. cbn. apply updateSparseRow_ids.
Qed.

Lemma suspend_keeps_ids es : always (keeps tableIDs) (suspend es).
Proof. unfold suspend, updateStream. frame. Qed.

Lemma DeleteCheckpoints_keeps_ids id : always (keeps tableIDs) (DeleteCheckpoints id).
Proof. unfold DeleteCheckpoints. frame. Qed.

#[local] Hint Resolve UpdateSparse_keeps_ids suspend_keeps_ids DeleteCheckpoints_keeps_ids : frame.

Lemma delete_keeps_ids es : always (keeps tableIDs) (delete_ es).
Proof. unfold delete_, updateSpec, updateStream. frame. Qed.

(** [Delete] either removes the rows of the ID or fails and leaves the world
    as it was, the consumed fault and the trace apart. *)
Lemma Delete_outcomes id (w : World) out w1 :
  Delete id w = (out, w1) ->
  (out = Ok tt /\ w1 = withTable (deleteRow id (esTable w)) (afterCall [EvDelete id None] w))
  \/ (exists e, out = Err e /\ w1 = afterCall [EvDelete id (Some e)] w).
Proof.
  unfold Delete, afterCall. intros H. mrun_in H.
  destruct (faults w) as [| [cause |] rest] eqn:Hf; cbn in H; injection H as <- <-.
  - left. split; [done |]. mrun. world_eq.
  - right. eexists. split; [done |]. mrun. world_eq.
  - left. split; [done |]. mrun. world_eq.
Qed.

(** What the stream's own [delete] has done when it returns without
    error. *)
Lemma delete_Ok es (w w1 : World) :
  delete_ es w = (Ok tt, w1) ->
  exists e s,
    esObjs w !! es = Some e /\ specObjs w !! spec e = Some s
    /\ streams w1 = streams w
    /\ esTable w1 = updateSparseRow
                      (setStatus (Some EventStreamStatusDeleted) (setID (Some (GetID s)) emptySpec))
                      (esTable w)
    /\ esObjs w1 = <[es := mkStream (spec e) Deleted]> (esObjs w).
Proof.
  unfold delete_. intros H.
  apply bind_Ok_inv in H as ([] & w2 & Hsus & H).
  apply suspend_Ok in Hsus as (e & He & ->).
  assert (Hlt : es < length (esObjs w)) by (eapply lookup_lt_Some; eauto).
  apply bind_Ok_inv in H as (e' & w3 & Hde & H).
  apply deref_Ok in Hde as [He' ->]. cbn in He'.
  rewrite list_lookup_insert_eq in He' by done. injection He' as <-.
  rewrite quiesce_spec in H.
  apply bind_Ok_inv in H as (s & w3 & Hde & H).
  apply deref_Ok in Hde as [Hs ->]. cbn in Hs.
  apply bind_Ok_inv in H as ([] & w3 & Hupd & H).
  apply updateSpec_Ok in Hupd as (s0 & _ & ->).
  apply bind_Ok_inv in H as ([] & w4 & Hsp & H).
  apply UpdateSparse_Ok in Hsp as ->.
  apply bind_Ok_inv in H as ([] & w5 & Hcp & H).
  apply DeleteCheckpoints_Ok in Hcp as ->.
  unfold updateStream in H.
  apply bind_Ok_inv in H as (e' & w6 & Hde & H).
  apply deref_Ok in Hde as [He' ->]. cbn in He'.
  rewrite list_lookup_insert_eq in He' by done. injection He' as <-.
  injection H as <-. cbn.
  exists e, s. rewrite quiesce_spec, list_insert_insert_eq. done.
Qed.

(** X7.  [DeleteStream] on a registered stream removes the registry entry
    last: when it returns without error the entry of the ID is gone and
    the others are as they were, the table has no row of the ID, and the
    stream object is in its terminal state; where the stream is registered
    under the ID of its own spec, the other rows are as they were.  When it
    returns an error, from the stream's own delete or from the removal of
    the row, the stream is still registered and no row has been removed. *)
Theorem DeleteStream_outcome id (w : World) es out w' :
  streams w !! id = Some es ->
  DeleteStream id w = (out, w') ->
  (out = Ok tt ->
     streams w' = delete id (streams w)
     /\ Forall (fun r => GetID r <> id) (esTable w')
     /\ (exists e, esObjs w' !! es = Some e /\ state e = Deleted)
     /\ (forall e s, esObjs w !! es = Some e -> specObjs w !! spec e = Some s ->
           GetID s = id -> esTable w' = deleteRow id (esTable w)))
  /\ (out <> Ok tt -> streams w' = streams w /\ tableIDs w' = tableIDs w).
Proof.
  intros Hes Hrun. unfold DeleteStream in Hrun.
  rewrite (bind_ok _ _ w (Some es) w) in Hrun by (unfold getStream, gets; by rewrite Hes).
  apply bind_inv in Hrun as [([] & w1 & Hdel & Hrun) | (o & Hdel & Hp)]; cycle 1.
  { split; [intros ->; by destruct o |]. intros _.
    split; [by apply delete_keeps_streams in Hdel | by apply delete_keeps_ids in Hdel]. }
  apply bind_inv in Hrun as [([] & w2 & Hrow & Hrun) | (o & Hrow & Hp)]; cycle 1.
  { split; [intros ->; by destruct o |]. intros _.
    pose proof (delete_keeps_streams _ _ _ _ Hdel) as Hs1.
    pose proof (delete_keeps_ids _ _ _ _ Hdel) as Hi1.
    apply Delete_outcomes in Hrow as [[-> _] | (e & -> & ->)]; [done |].
    split; [exact Hs1 | exact Hi1]. }
  injection Hrun as <- <-. split; [| done]. intros _.
  apply delete_Ok in Hdel as (e & s & He & Hs & Hs1 & Ht1 & He1).
  apply Delete_Ok in Hrow as ->. cbn.
  assert (Hlt : es < length (esObjs w)) by (eapply lookup_lt_Some; eauto).
  split; [by rewrite Hs1 |]. split; [apply deleteRow_ids |]. split.
  - rewrite He1, list_lookup_insert_eq by done. eauto.
  - intros e' s' He' Hs' Hid.
    pose proof (eq_trans (eq_sym He') He) as [= ->].
    rewrite Hs in Hs'. injection Hs' as <-.
    rewrite Ht1. subst id.
    apply (deleteRow_updateSparseRow
             (setStatus (Some EventStreamStatusDeleted) (setID (Some (GetID s)) emptySpec))).
Qed.

(** *** A reset that fails half-way *)

Lemma DeleteCheckpoints_outcomes id (w : World) out w1 :
  DeleteCheckpoints id w = (out, w1) ->
  (out = Ok tt
   /\ w1 = withCheckpoints (List.filter (fun c => negb (bool_decide (cpID c = id))) (cpTable w))
              (afterCall [EvDeleteCheckpoints id None] w))
  \/ (exists e, out = Err e /\ w1 = afterCall [EvDeleteCheckpoints id (Some e)] w).
Proof.
  unfold DeleteCheckpoints, afterCall. intros H. mrun_in H.
  destruct (faults w) as [| [cause |] rest] eqn:Hf; cbn in H; injection H as <- <-.
  - left. split; [done |]. mrun. world_eq.
  - right. eexists. split; [done |]. mrun. world_eq.
  - left. split; [done |]. mrun. world_eq.
Qed.

Lemma UpdateSparse_outcomes partial (w : World) out w1 :
  UpdateSparse partial w = (out, w1) ->
  (out = Ok tt
   /\ w1 = withTable (updateSparseRow partial (esTable w)) (afterCall [EvUpdateSparse partial None] w))
  \/ (exists e, out = Err e /\ w1 = afterCall [EvUpdateSparse partial (Some e)] w).
Proof.
  unfold UpdateSparse, afterCall. intros H. mrun_in H.
  destruct (faults w) as [| [cause |] rest] eqn:Hf; cbn in H; injection H as <- <-.
  - left. split; [done |]. mrun. world_eq.
  - right. eexists. split; [done |]. mrun. world_eq.
  - left. split; [done |]. mrun. world_eq.
Qed.

Lemma start_no_failed_update es : always (emitsOnly (fun e => ~ isFailedUpdate e)) (start es).
Proof. unfold start. frame; apply updateStream_emits. Qed.

(** X8.  [ResetStream] writes the new [InitialSequenceID] to the stream's
    in-memory spec before it updates the row.  When that sparse update
    fails, the call returns its error with the stream suspended and not
    started again, its checkpoints removed, the spec table as it was and
    the in-memory spec already at the new [InitialSequenceID]. *)
Theorem ResetStream_failed_update id sequenceID (w : World) es out w' partial err :
  streams w !! id = Some es ->
  ResetStream id sequenceID w = (out, w') ->
  EvUpdateSparse partial (Some err) ∈ added w w' ->
  out = Err err
  /\ esTable w' = esTable w
  /\ (forall c, c ∈ cpTable w' -> cpID c <> id)
  /\ (exists e s, esObjs w' !! es = Some e /\ specObjs w' !! spec e = Some s
        /\ InitialSequenceID s = Some sequenceID
        /\ state e <> Starting /\ state e <> Running)
  /\ (forall r, EvStart es r ∉ added w w').
Proof.
  intros Hes Hrun Hin. unfold ResetStream in Hrun.
  rewrite (bind_ok _ _ w (Some es) w) in Hrun by (unfold getStream, gets; by rewrite Hes).
  (* suspend *)
  unfold bind at 1 in Hrun. destruct (suspend es w) as [o w1] eqn:Hsus.
  pose proof (suspend_outcomes _ _ _ _ Hsus) as [[-> _] | [(e & -> & ->) | (msg & -> & Htr)]];
    cycle 1.
  { injection Hrun as <- <-. exfalso.
    rewrite (added_app w _ [EvSuspend es; EvSuspended es (Some e)]) in Hin by done.
    repeat (apply elem_of_cons in Hin as [[=] | Hin]). by apply elem_of_nil in Hin. }
  { injection Hrun as <- <-. exfalso.
    rewrite (added_app w _ _ Htr) in Hin.
    repeat (apply elem_of_cons in Hin as [[=] | Hin]). by apply elem_of_nil in Hin. }
  apply suspend_Ok in Hsus as (e0 & He0 & ->).
  assert (Hlt : es < length (esObjs w)) by (eapply lookup_lt_Some; eauto).
  (* the checkpoints *)
  unfold bind at 1 in Hrun. destruct (DeleteCheckpoints id _) as [o w2] eqn:Hcp.
  apply DeleteCheckpoints_outcomes in Hcp as [[-> ->] | (e & -> & ->)]; cycle 1.
  { injection Hrun as <- <-. exfalso.
    rewrite (added_app w _ [EvSuspend es; EvSuspended es None; EvDeleteCheckpoints id (Some e)])
      in Hin by (cbn; by rewrite <- app_assoc).
    repeat (apply elem_of_cons in Hin as [[=] | Hin]). by apply elem_of_nil in Hin. }
  (* the in-memory spec *)
  rewrite (bind_ok _ _ _ (quiesce e0) _) in Hrun
    by (apply deref_ok; cbn; by rewrite list_lookup_insert_eq).
  rewrite quiesce_spec in Hrun.
  unfold bind at 1 in Hrun. unfold updateSpec in Hrun at 1. unfold bind at 1 in Hrun.
  unfold deref at 1 in Hrun. cbn in Hrun.
  destruct (specObjs w !! spec e0) as [s0 |] eqn:Hs0; cycle 1.
  { injection Hrun as <- <-. exfalso.
    rewrite (added_app w _ [EvSuspend es; EvSuspended es None; EvDeleteCheckpoints id None])
      in Hin by (cbn; by rewrite <- app_assoc).
    repeat (apply elem_of_cons in Hin as [[=] | Hin]). by apply elem_of_nil in Hin. }
  assert (Hlt' : spec e0 < length (specObjs w)) by (eapply lookup_lt_Some; eauto).
  cbn in Hrun.
  (* the sparse update *)
  unfold bind at 1 in Hrun.
  destruct (UpdateSparse _ _) as [o w3] eqn:Hup.
  apply UpdateSparse_outcomes in Hup as [[-> ->] | (e & -> & ->)].
  - exfalso.
    assert (Hrest : exists tr, trace w' = trace w
                      ++ [EvSuspend es; EvSuspended es None; EvDeleteCheckpoints id None;
                          EvUpdateSparse (setInitialSequenceID (Some sequenceID)
                                            (setID (Some id) emptySpec)) None] ++ tr
                      /\ Forall (fun e => ~ isFailedUpdate e) tr).
    { unfold bind at 1, deref at 1 in Hrun. cbn in Hrun.
      rewrite list_lookup_insert_eq in Hrun by done. cbn in Hrun.
      destruct (Status s0) as [st |].
      - destruct (bool_decide _).
        + apply start_no_failed_update in Hrun as (tr & Htr & Hall). exists tr.
          split; [| done]. rewrite Htr. cbn. by rewrite <- !app_assoc.
        + injection Hrun as <- <-. exists []. split; [| constructor]. cbn.
          by rewrite <- !app_assoc.
      - injection Hrun as <- <-. exists []. split; [| constructor]. cbn.
        by rewrite <- !app_assoc. }
    destruct Hrest as (tr & Htr & Hall).
    rewrite (added_app w w' _ Htr) in Hin.
    apply elem_of_app in Hin as [Hin | Hin].
    + repeat (apply elem_of_cons in Hin as [[=] | Hin]). by apply elem_of_nil in Hin.
    + rewrite Forall_forall in Hall. by apply (Hall _ Hin).
  - injection Hrun as <- <-.
    rewrite (added_app w _ [EvSuspend es; EvSuspended es None; EvDeleteCheckpoints id None;
                            EvUpdateSparse (setInitialSequenceID (Some sequenceID)
                                              (setID (Some id) emptySpec)) (Some e)])
      in Hin |- * by (cbn; by rewrite <- !app_assoc).
    assert (e = err) as ->.
    { repeat (apply elem_of_cons in Hin as [Heq | Hin]; [by simplify_eq |]).
      by apply elem_of_nil in Hin. }
    split; [done |]. cbn. split; [done |]. split.
    { intros c [_ Hc]%list_elem_of_In%filter_In.
      apply negb_true_iff, bool_decide_eq_false in Hc. done. }
    split.
    + exists (quiesce e0), (setInitialSequenceID (Some sequenceID) s0).
      rewrite list_lookup_insert_eq by done.
      rewrite quiesce_spec, list_lookup_insert_eq by done.
      split; [done |]. split; [done |]. split; [done |]. apply quiesce_state.
    + intros r Hr.
      repeat (apply elem_of_cons in Hr as [[=] | Hr]). by apply elem_of_nil in Hr.
Qed.

(** *** Startup registers every row *)

Lemma initializePage_registers ps rows (w w' : World) :
  Forall2 (fun p r => specObjs w !! p = Some r) ps rows ->
  Forall (fun r => Status r <> Some EventStreamStatusDeleted) rows ->
  initializePage ps w = (Ok tt, w') ->
  esTable w' = esTable w /\ specObjs w' = specObjs w
  /\ length (esObjs w) <= length (esObjs w')
  /\ (forall id, id ∉ GetID <$> rows -> streams w' !! id = streams w !! id)
  /\ (forall id, id ∈ GetID <$> rows ->
        exists es, streams w' !! id = Some es
          /\ length (esObjs w) <= es /\ es < length (esObjs w')).
Proof.
  revert rows w. induction ps as [| p ps IH]; intros rows w Hrows Hlive H.
  { apply Forall2_nil_inv_l in Hrows as ->. injection H as <-.
    repeat split; try done. intros id Hid. by apply elem_of_nil in Hid. }
  apply Forall2_cons_inv_l in Hrows as (r & rows' & Hp & Hrows & ->).
  apply Forall_cons in Hlive as [Hr Hlive].
  cbn in H. rewrite (bind_ok _ _ _ _ _ (deref_ok specObjs _ _ _ Hp)) in H.
  destruct (Status r) as [st |] eqn:Hst; [| done].
  apply bind_Ok_inv in H as ([] & w1 & Hact & H).
  rewrite bool_decide_eq_false_2 in Hact by congruence.
  apply bind_Ok_inv in Hact as (es & w2 & Hinit & Hadd).
  apply initEventStream_Ok in Hinit as (s & Hs & -> & ->).
  rewrite Hp in Hs. injection Hs as <-.
  apply addStream_Ok in Hadd as (e & s' & name & He & Hs' & _ & ->).
  cbn in He, Hs'. rewrite lookup_last in He.
  assert (Hsp : spec e = p) by (destruct (bool_decide _); by injection He as <-).
  rewrite Hsp, Hp in Hs'. injection Hs' as <-.
  eapply IH in H as (Htbl & Hobjs & Hlen & Hother & Hin); [| exact Hrows | done].
  cbn in Htbl, Hobjs, Hlen, Hother, Hin. rewrite length_app in Hlen, Hin. cbn in Hlen, Hin.
  split; [done |]. split; [done |]. split; [lia |]. split.
  - intros id [Hne Hnot]%not_elem_of_cons. rewrite (Hother _ Hnot).
    by apply lookup_insert_ne.
  - intros id Hid. destruct (decide (id ∈ GetID <$> rows')) as [Hrest | Hrest].
    + destruct (Hin _ Hrest) as (es & Hes & Hge & Hlt). exists es. split; [done |]. lia.
    + rewrite fmap_cons in Hid. apply elem_of_cons in Hid as [-> | Hid]; [| done].
      exists (length (esObjs w)).
      split; [exact (eq_trans (Hother _ Hrest) (lookup_insert_eq _ _ _)) | lia].
Qed.

Lemma initializeFrom_registers fuel skip (w w' : World) :
  Forall (fun r => Status r <> Some EventStreamStatusDeleted) (esTable w) ->
  initializeFrom fuel skip w = (Ok tt, w') ->
  esTable w' = esTable w
  /\ length (esObjs w) <= length (esObjs w')
  /\ (forall id, id ∉ GetID <$> drop skip (esTable w) -> streams w' !! id = streams w !! id)
  /\ (forall id, id ∈ GetID <$> drop skip (esTable w) ->
        exists es, streams w' !! id = Some es
          /\ length (esObjs w) <= es /\ es < length (esObjs w')).
Proof.
  revert skip w. induction fuel as [| fuel IH]; intros skip w Hlive H; [done |].
  cbn in H. apply bind_Ok_inv in H as ([ps fr] & w1 & Hget & H).
  apply GetMany_Ok in Hget as [-> ->]. cbn in H. rewrite filter_all in H.
  remember (page skip pageSize (esTable w)) as rows eqn:Hrows.
  pose proof (newSpecs_lookup (specObjs w) rows) as Hps.
  destruct (seq (length (specObjs w)) (length rows)) as [| p ps] eqn:Hseq.
  { unfold ret in H. injection H as <-. apply Forall2_nil_inv_l in Hps as ->.
    symmetry in Hrows. apply page_nil_drop in Hrows. rewrite Hrows. cbn.
    repeat split; try done. intros id Hid. by apply elem_of_nil in Hid. }
  apply bind_Ok_inv in H as ([] & w2 & Hpage & H).
  unfold page, pageSize in Hrows. fold pageSize in Hrows.
  assert (Hsplit : drop skip (esTable w) = rows ++ drop (skip + pageSize) (esTable w)).
  { rewrite Hrows, <- drop_drop. by rewrite take_drop. }
  assert (Hsub : Forall (fun r => Status r <> Some EventStreamStatusDeleted) rows).
  { rewrite Forall_forall in Hlive |- *. intros r Hr. apply Hlive.
    rewrite Hrows in Hr. by apply subseteq_take, subseteq_drop in Hr. }
  apply initializePage_registers with (rows := rows) in Hpage
    as (Htbl1 & _ & Hlen1 & Hother1 & Hin1); [| done | done].
  cbn in Htbl1, Hlen1, Hother1, Hin1.
  apply IH in H as (Htbl2 & Hlen2 & Hother2 & Hin2); [| by rewrite Htbl1].
  rewrite Htbl1 in Htbl2, Hother2, Hin2.
  split; [done |]. split; [lia |]. split.
  - intros id Hid. rewrite Hsplit, fmap_app, not_elem_of_app in Hid.
    destruct Hid as [Hid1 Hid2]. by rewrite (Hother2 _ Hid2), (Hother1 _ Hid1).
  - intros id Hid.
    destruct (decide (id ∈ GetID <$> drop (skip + pageSize) (esTable w))) as [Hrest | Hrest].
    + destruct (Hin2 _ Hrest) as (es & Hes & Hge & Hlt). exists es. split; [done |]. lia.
    + rewrite Hsplit, fmap_app, elem_of_app in Hid. destruct Hid as [Hid | Hid]; [| done].
      destruct (Hin1 _ Hid) as (es & Hes & Hge & Hlt). exists es.
      split; [exact (eq_trans (Hother2 _ Hrest) Hes) | lia].
Qed.

(** X9.  Over a spec table without deleted rows, a startup that returns
    without error leaves the table as it was and has registered every row,
    whatever the number of pages: the registry has an entry for the ID of
    each row, and the entry is a stream object created by this startup.
    Registry entries of IDs the table does not hold are as they were. *)
Theorem initialize_registers_every_row (w w' : World) :
  Forall (fun r => Status r <> Some EventStreamStatusDeleted) (esTable w) ->
  initialize w = (Ok tt, w') ->
  esTable w' = esTable w
  /\ (forall r, r ∈ esTable w ->
        exists es, streams w' !! GetID r = Some es
          /\ esObjs w !! es = None /\ is_Some (esObjs w' !! es))
  /\ (forall id, id ∉ tableIDs w -> streams w' !! id = streams w !! id).
Proof.
  unfold initialize. intros Hlive H.
  apply bind_Ok_inv in H as (n & w1 & [= <- <-] & H).
  apply initializeFrom_registers in H as (Htbl & _ & Hother & Hin); [| done].
  rewrite drop_0 in Hother, Hin.
  split; [done |]. split; [| done].
  intros r Hr. destruct (Hin (GetID r)) as (es & Hes & Hge & Hlt).
  { apply list_elem_of_fmap. eauto. }
  exists es. split; [done |].
  split; [by apply lookup_ge_None | by apply lookup_lt_is_Some].
Qed.

(** *** The registry as a map *)

(** X11.  [addStream] files a stream under the ID of its spec: after it,
    [getStream] of that ID returns the stream and [getStream] of another ID
    returns what it returned before.  [removeStream] of the ID then makes
    [getStream] return nil for it, leaves the other entries alone and, when
    the ID was not registered before the [addStream], gives back the
    registry as it was. *)
Theorem registry_round_trip (w : World) es w1 :
  addStream es w = (Ok tt, w1) ->
  exists e s,
    esObjs w !! es = Some e /\ specObjs w !! spec e = Some s
    /\ getStream (GetID s) w1 = (Ok (Some es), w1)
    /\ (forall id, id <> GetID s -> getStream id w1 = (Ok (streams w !! id), w1))
    /\ exists w2,
         removeStream (GetID s) w1 = (Ok tt, w2)
         /\ getStream (GetID s) w2 = (Ok None, w2)
         /\ (forall id, id <> GetID s -> getStream id w2 = (Ok (streams w !! id), w2))
         /\ (streams w !! GetID s = None -> streams w2 = streams w).
Proof.
  intros H. apply addStream_Ok in H as (e & s & name & He & Hs & _ & ->).
  exists e, s. split; [done |]. split; [done |].
  unfold getStream, removeStream, gets, modify. cbn.
  split; [by rewrite lookup_insert_eq |].
  split; [intros id Hne; by rewrite lookup_insert_ne |].
  eexists. split; [done |]. cbn.
  split; [by rewrite lookup_delete_eq |].
  split.
  - intros id Hne. by rewrite lookup_delete_ne, lookup_insert_ne.
  - intros Hnone. by apply delete_insert_id.
Qed.

(** *** Reading does not write *)

Lemma enrichAll_keeps {A} (f : World -> A) ps :
  (forall w t, f (withTrace t w) = f w) -> always (keeps f) (enrichAll ps).
Proof.
  intros Hf. induction ps as [| p ps IH]; cbn; [frame |].
  apply always_bind; [typeclasses eauto | by apply enrichGetStream_keeps |].
  intros e. frame.
Qed.

(** X12.  [ListStreams] and [GetStreamByID] only read: whatever comes back
    from persistence and whatever the outcome, they leave the spec table, the
    checkpoints and every stream object as they were. *)
Theorem reads_write_nothing filter id opts :
  always (keeps esTable) (ListStreams filter)
  /\ always (keeps cpTable) (ListStreams filter)
  /\ always (keeps esObjs) (ListStreams filter)
  /\ always (keeps esTable) (GetStreamByID id opts)
  /\ always (keeps cpTable) (GetStreamByID id opts)
  /\ always (keeps esObjs) (GetStreamByID id opts).
Proof.
  assert (Hmany : forall {A} (f : World -> A),
            (forall w t, f (withTrace t w) = f w) ->
            (forall w t, f (withFaults t w) = f w) ->
            (forall w t, f (withSpecObjs t w) = f w) ->
            always (keeps f) (ListStreams filter) /\ always (keeps f) (GetStreamByID id opts)).
  { intros A f Ht Hf Ho. split.
    - unfold ListStreams.
      apply always_bind; [typeclasses eauto | |].
      + unfold GetMany, newSpecs.
        repeat first
          [ apply always_bind; [typeclasses eauto | | intros ?]
          | apply always_nextFault_keeps; exact Hf
          | apply always_emit_keeps; exact Ht
          | apply always_modify; intros ?; apply Ho
          | match goal with |- always _ (match ?x with _ => _ end) => destruct x end
          | solve [ intros ? ? ? [= <- <-]; apply Ho ]
          | progress frame ].
      + intros res. apply always_bind; [typeclasses eauto | by apply enrichAll_keeps |].
        intros ?. frame.
    - unfold GetStreamByID.
      apply always_bind; [typeclasses eauto | | intros ?; by apply enrichGetStream_keeps].
      unfold GetByID, newSpecs.
      repeat first
        [ apply always_bind; [typeclasses eauto | | intros ?]
        | apply always_nextFault_keeps; exact Hf
        | apply always_emit_keeps; exact Ht
        | match goal with |- always _ (match ?x with _ => _ end) => destruct x end
        | solve [ intros ? ? ? [= <- <-]; apply Ho ]
        | progress frame ]. }
  destruct (Hmany _ esTable) as [? ?]; [done .. |].
  destruct (Hmany _ cpTable) as [? ?]; [done .. |].
  destruct (Hmany _ esObjs) as [? ?]; [done .. |].
  done.
Qed.

End ManagerFacts.

(** ** [FFIParams] as an SQL column *)

Section FFIParamsColumn.

Import fftypes.

Variable Unmarshal : list Byte.byte -> option ptr -> Mem -> option ScanError * option ptr * Mem.
Variable Marshal : FFIParams -> option (list Byte.byte) * option ScanError.

(** C9.  [Scan] with a nil source returns a nil error and leaves the memory,
    and with it the caller's [FFIParams], as it was: the nil is assigned to
    the method's own copy of the receiver pointer.  With a source that is
    neither nil, a string nor a byte slice it returns the type-restore error
    and leaves the memory as it was. *)
Theorem Scan_nil_and_foreign_sources (p : option ptr) (mem : Mem) :
  Scan Unmarshal p SrcNil mem = (None, mem)
  /\ forall src, foreign src ->
       Scan Unmarshal p src mem = (Some (MsgTypeRestoreFailed src p), mem).
Proof.
  split; [reflexivity |].
  intros src Hsrc. by destruct src.
Qed.

(** C10.  [Value] returns a nil error for every [FFIParams]: the bytes are
    those of [json.Marshal] and its error is dropped, so a failed marshal,
    which gives nil bytes, comes back as nil bytes with a nil error. *)
Theorem Value_discards_marshal_error (p : FFIParams) :
  (Value Marshal p).2 = None
  /\ (Value Marshal p).1 = (Marshal p).1
  /\ forall e, Marshal p = (None, Some e) -> Value Marshal p = (None, None).
Proof.
  unfold Value. split; [done |]. split; [done |].
  intros e He. by rewrite He.
Qed.

(** A string source is scanned as the bytes of the string. *)
Lemma Scan_string_as_bytes (p : option ptr) (s : string) (mem : Mem) :
  Scan Unmarshal p (SrcString s) mem
  = Scan Unmarshal p (SrcBytes (String.list_byte_of_string s)) mem.
Proof. reflexivity. Qed.

End FFIParamsColumn.

(** ** Validation of an [FFI] *)

Section FFIValidation.

Import fftypes.

Context {UUID FFIMethod FFIEvent FFIError ValidationError : Type}.
Variable ValidateFFNameField : string -> string -> option ValidationError.
Variable TypeNamespaceNameTopicHash : string -> string -> string -> string.

Local Abbreviation FFI := (FFI.FFI UUID FFIMethod FFIEvent FFIError).

(** X13.  [Validate] accepts an FFI exactly when its name and its version pass
    the name check and its network name is empty or passes it too; an empty
    network name is not checked.  The error is that of the first field that
    fails, in the order name, version, network name.  The [existing] flag
    and every other field (namespace, description, methods, events, errors)
    have no part in the result. *)
Theorem Validate_checks_three_names (f : FFI) (existing : bool) :
  (FFI.Validate ValidateFFNameField f existing = None <->
     ValidateFFNameField (FFI.Name f) "name" = None
     /\ ValidateFFNameField (FFI.Version f) "version" = None
     /\ (FFI.NetworkName f = ""
         \/ ValidateFFNameField (FFI.NetworkName f) "networkName" = None))
  /\ (forall err, FFI.Validate ValidateFFNameField f existing = Some err ->
        ValidateFFNameField (FFI.Name f) "name" = Some err
        \/ (ValidateFFNameField (FFI.Name f) "name" = None
            /\ ValidateFFNameField (FFI.Version f) "version" = Some err)
        \/ (ValidateFFNameField (FFI.Name f) "name" = None
            /\ ValidateFFNameField (FFI.Version f) "version" = None
            /\ FFI.NetworkName f <> ""
            /\ ValidateFFNameField (FFI.NetworkName f) "networkName" = Some err))
  /\ (forall (g : FFI) existing',
        FFI.Name g = FFI.Name f -> FFI.Version g = FFI.Version f ->
        FFI.NetworkName g = FFI.NetworkName f ->
        FFI.Validate ValidateFFNameField g existing'
        = FFI.Validate ValidateFFNameField f existing).
Proof.
  unfold FFI.Validate. split; [| split].
  - destruct (ValidateFFNameField (FFI.Name f) "name") as [e1 |]; [by split; [| intros [? _]] |].
    destruct (ValidateFFNameField (FFI.Version f) "version") as [e2 |];
      [by split; [| intros (_ & ? & _)] |].
    destruct (decide (FFI.NetworkName f = "")) as [Hn | Hn].
    + rewrite bool_decide_eq_true_2 by done. cbn. split; [auto | done].
    + rewrite bool_decide_eq_false_2 by done. cbn.
      destruct (ValidateFFNameField (FFI.NetworkName f) "networkName") as [e3 |].
      * split; [done |]. intros (_ & _ & [? | ?]); done.
      * split; [auto | done].
  - intros err.
    destruct (ValidateFFNameField (FFI.Name f) "name") as [e1 |]; [auto |].
    destruct (ValidateFFNameField (FFI.Version f) "version") as [e2 |]; [auto |].
    destruct (decide (FFI.NetworkName f = "")) as [Hn | Hn].
    + by rewrite bool_decide_eq_true_2 by done.
    + rewrite bool_decide_eq_false_2 by done. cbn.
      destruct (ValidateFFNameField (FFI.NetworkName f) "networkName") as [e3 |] eqn:H3;
        [| done].
      intros [= ->]. right. right. done.
  - intros g existing' -> -> ->. done.
Qed.

(** Setting the broadcast message writes [Message] alone: the topic and the
    outcome of the validation are those of the FFI before. *)
Lemma SetBroadcastMessage_keeps_topic_and_validity (f : FFI) msgID existing :
  FFI.Message (FFI.SetBroadcastMessage f msgID) = msgID
  /\ FFI.Topic TypeNamespaceNameTopicHash (FFI.SetBroadcastMessage f msgID)
     = FFI.Topic TypeNamespaceNameTopicHash f
  /\ FFI.Validate ValidateFFNameField (FFI.SetBroadcastMessage f msgID) existing
     = FFI.Validate ValidateFFNameField f existing.
Proof. done. Qed.

End FFIValidation.

Example Scan_nil_keeps_value :
  fftypes.Scan fftypes.sampleUnmarshal (Some 0) fftypes.SrcNil
    [Some [Some (fftypes.mkFFIParam "x" None)]]
  = (None, [Some [Some (fftypes.mkFFIParam "x" None)]]).
Proof. reflexivity. Qed.

Example Scan_string_overwrites :
  fftypes.Scan fftypes.sampleUnmarshal (Some 0) (fftypes.SrcString "[]")
    [Some [Some (fftypes.mkFFIParam "x" None)]]
  = (None, [Some []]).
Proof. reflexivity. Qed.

Example Value_hides_failure :
  fftypes.sampleMarshal (Some [Some (fftypes.mkFFIParam "x" (Some "{"))])
  = (None, Some (fftypes.ErrJSON "unexpected end of JSON input"))
  /\ fftypes.Value fftypes.sampleMarshal (Some [Some (fftypes.mkFFIParam "x" (Some "{"))])
     = (None, None).
Proof. split; reflexivity. Qed.

(** ** The sample deployment *)

#[local] Instance objectsValid_dec {CT} (w : World CT) es : Decision (objectsValid w es).
Proof. unfold objectsValid. apply _. Defined.

#[local] Instance registryValid_dec {CT} (w : World CT) : Decision (registryValid w).
Proof. unfold registryValid. apply _. Defined.

(** C3.  On a table of 26 rows whose first row has the status deleted,
    startup succeeds, reads one page of 25 rows, and ends with the 26th row,
    a started stream, still in the table and without a LiveStream: after the
    purge the table has 25 rows, so the page at [Skip(25)] is empty. *)
Theorem initialize_skips_row_after_purge :
  exists w',
    initialize Sample.purgedThenLive = (Ok tt, w')
    /\ Sample.stream "s25" EventStreamStatusStarted ∈ esTable w'
    /\ streams w' !! "s25" = None
    /\ encountered (drop (length (trace Sample.purgedThenLive)) (trace w'))
       = take 25 (esTable Sample.purgedThenLive).
Proof.
  eexists. split; [vm_compute; reflexivity |].
  split; [| split; vm_compute; reflexivity].
  apply list_elem_of_In. vm_compute. do 24 right. left. reflexivity.
Qed.

(** Startup over a started stream listed before a deleted one builds the
    LiveStream of the first before it removes the row of the second. *)
Lemma initialize_creates_before_purging :
  (initialize Sample.liveThenPurged).1 = Ok tt
  /\ ~ purgesFirst (trace (initialize Sample.liveThenPurged).2).
Proof.
  split; [vm_compute; reflexivity |].
  intros H.
  specialize (H 1 3 0 (Sample.stream "a" EventStreamStatusStarted) 0 "b").
  vm_compute in H. specialize (H eq_refl eq_refl).
  repeat (apply le_S_n in H). inversion H.
Qed.

Lemma initialize_purges_in_page_order_witness :
  initialize Sample.liveThenPurged = (Ok tt, (initialize Sample.liveThenPurged).2)
  /\ exists tr, trace (initialize Sample.liveThenPurged).2 = trace Sample.liveThenPurged ++ tr
    /\ startupActions tr = actionFor <$> encountered tr.
Proof.
  assert (H1 : initialize Sample.liveThenPurged = (Ok tt, (initialize Sample.liveThenPurged).2))
    by (vm_compute; reflexivity).
  split; [exact H1 |].
  destruct (initialize_purges_in_page_order _ _ H1) as (tr & Htr & Hacts & _).
  exists tr. split; [exact Htr | exact Hacts].
Defined.

(** After an upsert whose suspend failed, the row of the stream says started
    while the registry holds the stream built from the stopped spec;
    [ResetStream] succeeds there and does not start the stream. *)
Lemma ResetStream_reads_in_memory_status :
  streams Sample.staleWorld !! "a" = Some 0
  /\ esTable Sample.staleWorld = [Sample.stream "a" EventStreamStatusStarted]
  /\ (ResetStream "a" "z" Sample.staleWorld).1 = Ok tt
  /\ trace (ResetStream "a" "z" Sample.staleWorld).2
     = trace Sample.staleWorld ++
       [EvSuspend 0; EvSuspended 0 None; EvDeleteCheckpoints "a" None;
        EvUpdateSparse (mkSpec (Some "a") None None (Some "z") None None None None None) None]
  /\ ~ (EvStart 0 None ∈ trace (ResetStream "a" "z" Sample.staleWorld).2).
Proof.
  split; [vm_compute; reflexivity |].
  split; [vm_compute; reflexivity |].
  split; [vm_compute; reflexivity |].
  split; [vm_compute; reflexivity |].
  intros Hin. apply list_elem_of_In in Hin. vm_compute in Hin.
  repeat (destruct Hin as [Hin | Hin]; [discriminate Hin |]). exact Hin.
Qed.

Lemma ResetStream_resets_witness :
  streams Sample.twoStreams !! "a" = Some 0
  /\ ResetStream "a" "z" Sample.twoStreams = (Ok tt, (ResetStream "a" "z" Sample.twoStreams).2)
  /\ forall c, c ∈ cpTable (ResetStream "a" "z" Sample.twoStreams).2 -> cpID c <> "a".
Proof.
  assert (H1 : streams Sample.twoStreams !! "a" = Some 0) by (vm_compute; reflexivity).
  assert (H2 : ResetStream "a" "z" Sample.twoStreams
               = (Ok tt, (ResetStream "a" "z" Sample.twoStreams).2)) by (vm_compute; reflexivity).
  split; [exact H1 |]. split; [exact H2 |].
  exact (proj1 (ResetStream_resets "a" "z" Sample.twoStreams _ 0 H1 H2)).
Defined.

Lemma UpsertStream_status_check_witness :
  (specObjs Sample.deletedInput !! 0 = Some (Sample.stream "a" EventStreamStatusDeleted)
   /\ exists w',
        UpsertStream (RT := Sample.runtime) Sample.validName Sample.manager 0 Sample.deletedInput
        = (Err MsgESStartedOrStopped, w')
        /\ esTable w' = esTable Sample.deletedInput /\ cpTable w' = cpTable Sample.deletedInput
        /\ streams w' = streams Sample.deletedInput /\ esObjs w' = esObjs Sample.deletedInput)
  /\ (ID Sample.bareSpec = None
      /\ exists s',
           specObjs (UpsertStream (RT := Sample.runtime) Sample.validName Sample.manager 0
                       Sample.bareInput).2 !! 0 = Some s'
           /\ ID s' = Some "id-00"
           /\ Status s' = Some EventStreamStatusStarted)
  /\ (exists s',
        specObjs (UpsertStream (RT := Sample.runtime) Sample.validName Sample.manager 0
                    Sample.blankIDInput).2 !! 0 = Some s'
        /\ ID s' = Some "id-00").
Proof.
  assert (H1 : specObjs Sample.deletedInput !! 0
               = Some (Sample.stream "a" EventStreamStatusDeleted)) by (vm_compute; reflexivity).
  assert (H2 : specObjs Sample.bareInput !! 0 = Some Sample.bareSpec)
    by (vm_compute; reflexivity).
  assert (H3 : specObjs Sample.blankIDInput !! 0
               = Some (setID (Some "") (Sample.stream "a" EventStreamStatusDeleted)))
    by (vm_compute; reflexivity).
  split; [| split].
  - split; [exact H1 |].
    apply (proj1 (UpsertStream_status_check (RT := Sample.runtime) Sample.validName Sample.manager 0
                    Sample.deletedInput (Sample.stream "a" EventStreamStatusDeleted) H1)
             EventStreamStatusDeleted).
    + vm_compute; reflexivity.
    + discriminate.
    + discriminate.
  - split; [reflexivity |].
    destruct (proj2 (proj2 (UpsertStream_status_check (RT := Sample.runtime) Sample.validName
                              Sample.manager 0 Sample.bareInput Sample.bareSpec H2))
                _ _ (surjective_pairing _)) as (s' & Hs' & Hnew & _ & Hst).
    exists s'. split; [exact Hs' |]. split; [apply Hnew; left; reflexivity | exact Hst].
  - destruct (proj2 (proj2 (UpsertStream_status_check (RT := Sample.runtime) Sample.validName
                              Sample.manager 0 Sample.blankIDInput _ H3))
                _ _ (surjective_pairing _)) as (s' & Hs' & Hnew & _).
    exists s'. split; [exact Hs' |]. apply Hnew. right. reflexivity.
Defined.

Lemma UpsertStream_persists_input_witness :
  specObjs Sample.bareInput !! 0 = Some Sample.bareSpec
  /\ UpsertStream (RT := Sample.runtime) Sample.validName Sample.manager 0 Sample.bareInput
     = (Ok true,
        (UpsertStream (RT := Sample.runtime) Sample.validName Sample.manager 0 Sample.bareInput).2)
  /\ exists tr,
       trace (UpsertStream (RT := Sample.runtime) Sample.validName Sample.manager 0
                Sample.bareInput).2
       = trace Sample.bareInput ++ tr
       /\ forall isNew, Ok true = Ok isNew -> exists row, EvUpsert row (inr isNew) ∈ tr.
Proof.
  assert (H1 : specObjs Sample.bareInput !! 0 = Some Sample.bareSpec)
    by (vm_compute; reflexivity).
  assert (H2 : UpsertStream (RT := Sample.runtime) Sample.validName Sample.manager 0
                 Sample.bareInput
               = (Ok true,
                  (UpsertStream (RT := Sample.runtime) Sample.validName Sample.manager 0
                     Sample.bareInput).2))
    by (vm_compute; reflexivity).
  split; [exact H1 |]. split; [exact H2 |].
  destruct (UpsertStream_persists_input (RT := Sample.runtime) Sample.validName Sample.manager 0
              Sample.bareInput _ _ _ H1 H2) as (tr & Htr & _ & Hok).
  exists tr. split; [exact Htr | exact Hok].
Defined.

Lemma absent_live_stream_reports_unknown_witness :
  (exists w',
     GetStreamByID "s25" [FailIfNotFound] Sample.afterPurge
     = (Ok (mkWithStatus 25 EventStreamStatusUnknown), w')
     /\ specObjs w' !! 25 = Some (Sample.stream "s25" EventStreamStatusStarted))
  /\ (exists enriched w',
        ListStreams (mkFilter (fun _ => true) 0 0 false) Sample.afterPurge
        = (Ok (enriched, mkFilterResult None), w')
        /\ length enriched = 25
        /\ enriched !! 24 = Some (mkWithStatus 49 EventStreamStatusUnknown)
        /\ specObjs w' !! 49 = Some (Sample.stream "s25" EventStreamStatusStarted)).
Proof.
  split.
  - apply (proj1 absent_live_stream_reports_unknown
             Sample.afterPurge "s25" [FailIfNotFound] 25
             (GetByID "s25" [FailIfNotFound] Sample.afterPurge).2
             (Sample.stream "s25" EventStreamStatusStarted));
      vm_compute; reflexivity.
  - assert (Hget : GetMany (mkFilter (fun _ => true) 0 0 false) Sample.afterPurge
                   = (Ok (seq 25 25, mkFilterResult None),
                      (GetMany (mkFilter (fun _ => true) 0 0 false) Sample.afterPurge).2))
      by (vm_compute; reflexivity).
    assert (Hvalid : registryValid Sample.afterPurge)
      by (apply (bool_decide_unpack _); vm_compute; exact I).
    destruct (proj2 (proj2 (proj2 (proj2 absent_live_stream_reports_unknown)))
                Sample.afterPurge _ _ _ _ Hget Hvalid) as (enriched & w' & Hrun & Hlen & Hall).
    exists enriched, w'. split; [exact Hrun |]. split; [exact Hlen |].
    apply (Hall 24 49 (Sample.stream "s25" EventStreamStatusStarted));
      vm_compute; reflexivity.
Defined.

(** With two streams in the registry, [Close] calls the second [suspend]
    after the first has returned: no two suspends are in progress
    together. *)
Lemma Close_suspends_one_after_another :
  streams Sample.twoStreams !! "a" = Some 0
  /\ streams Sample.twoStreams !! "b" = Some 1
  /\ (Close (MR := Sample.inOrder) Sample.twoStreams).1 = Ok tt
  /\ drop (length (trace Sample.twoStreams))
       (trace (Close (MR := Sample.inOrder) Sample.twoStreams).2)
     = [EvSuspend 0; EvSuspended 0 None; EvSuspend 1; EvSuspended 1 None]
  /\ ~ suspendsOverlap
         (drop (length (trace Sample.twoStreams))
            (trace (Close (MR := Sample.inOrder) Sample.twoStreams).2)).
Proof.
  assert (Htr : drop (length (trace Sample.twoStreams))
                  (trace (Close (MR := Sample.inOrder) Sample.twoStreams).2)
                = [EvSuspend 0; EvSuspended 0 None; EvSuspend 1; EvSuspended 1 None])
    by (vm_compute; reflexivity).
  split; [vm_compute; reflexivity |].
  split; [vm_compute; reflexivity |].
  split; [vm_compute; reflexivity |].
  split; [exact Htr |].
  rewrite Htr. intros (i & j & es & es' & Hij & Hi & Hj & Hnone).
  destruct i as [| [| [| [| i]]]]; try discriminate Hi.
  - destruct j as [| [| [| [| j]]]]; try discriminate Hj; try lia.
    apply (Hnone 1 None); [lia | lia |]. injection Hi as <-. reflexivity.
  - destruct j as [| [| [| [| j]]]]; try discriminate Hj; lia.
Qed.

Lemma Close_suspends_in_turn_witness :
  registryValid Sample.twoStreamsFailing
  /\ exists w' tr,
       Close (MR := Sample.inOrder) Sample.twoStreamsFailing = (Ok tt, w')
       /\ trace w' = trace Sample.twoStreamsFailing ++ tr
       /\ closeTrace (range (MapRange := Sample.inOrder) (streams Sample.twoStreamsFailing)).*2 tr
       /\ forall id es, streams Sample.twoStreamsFailing !! id = Some es ->
            exists r, EvSuspend es ∈ tr /\ EvSuspended es r ∈ tr.
Proof.
  assert (H1 : registryValid Sample.twoStreamsFailing).
  { apply (bool_decide_unpack _). vm_compute. exact I. }
  split; [exact H1 |].
  exact (Close_suspends_in_turn (MR := Sample.inOrder) Sample.twoStreamsFailing H1).
Defined.

(** The failing suspend of the first stream is logged and the second stream
    is suspended all the same. *)
Example Close_logs_and_goes_on :
  drop (length (trace Sample.twoStreamsFailing))
    (trace (Close (MR := Sample.inOrder) Sample.twoStreamsFailing).2)
  = [EvSuspend 0; EvSuspended 0 (Some (ErrStream "context deadline exceeded"));
     EvLog (LogFailedToStop "a" (ErrStream "context deadline exceeded"));
     EvSuspend 1; EvSuspended 1 None].
Proof. vm_compute. reflexivity. Qed.

Lemma NewEventStreamManager_outcomes_witness :
  NewEventStreamManager (MR := Sample.inOrder) Sample.parseTLS true Sample.config
    Sample.liveThenPurged
  = (Ok Sample.manager,
     (NewEventStreamManager (MR := Sample.inOrder) Sample.parseTLS true Sample.config
        Sample.liveThenPurged).2)
  /\ initialize (withStreams ∅ Sample.liveThenPurged)
     = (Ok tt,
        (NewEventStreamManager (MR := Sample.inOrder) Sample.parseTLS true Sample.config
           Sample.liveThenPurged).2).
Proof.
  assert (H1 : NewEventStreamManager (MR := Sample.inOrder) Sample.parseTLS true Sample.config
                 Sample.liveThenPurged
               = (Ok Sample.manager,
                  (NewEventStreamManager (MR := Sample.inOrder) Sample.parseTLS true
                     Sample.config Sample.liveThenPurged).2))
    by (vm_compute; reflexivity).
  split; [exact H1 |].
  exact (proj1 (proj2 (proj2 (proj2
    (proj2 (proj2 (proj2 (proj2
      (NewEventStreamManager_outcomes (MR := Sample.inOrder) Sample.parseTLS true Sample.config
         Sample.liveThenPurged)))) _ _ H1))))).
Defined.

(** ** The further properties on the sample deployment *)

Lemma unregistered_stream_is_not_found_witness :
  Sample.stream "s25" EventStreamStatusStarted ∈ esTable Sample.afterPurge
  /\ streams Sample.afterPurge !! "s25" = None
  /\ DeleteStream "s25" Sample.afterPurge = (Err Msg404NoResult, Sample.afterPurge).
Proof.
  assert (H : streams Sample.afterPurge !! "s25" = None) by (vm_compute; reflexivity).
  split; [| split; [exact H |]].
  - apply list_elem_of_In. vm_compute. do 24 right. left. reflexivity.
  - exact (proj1 (unregistered_stream_is_not_found Sample.afterPurge "s25" "z" H)).
Defined.


Lemma UpsertStream_persists_first_witness :
  UpsertStream (RT := Sample.runtime) Sample.validName Sample.manager 0 Sample.storageDown
  = (Err (ErrStorage "connection refused"),
     (UpsertStream (RT := Sample.runtime) Sample.validName Sample.manager 0 Sample.storageDown).2)
  /\ esTable (UpsertStream (RT := Sample.runtime) Sample.validName Sample.manager 0
                Sample.storageDown).2 = []
  /\ streams (UpsertStream (RT := Sample.runtime) Sample.validName Sample.manager 0
                Sample.storageDown).2 = ∅.
Proof.
  assert (H1 : specObjs Sample.storageDown !! 0 = Some Sample.bareSpec)
    by (vm_compute; reflexivity).
  assert (H2 : UpsertStream (RT := Sample.runtime) Sample.validName Sample.manager 0
                 Sample.storageDown
               = (Err (ErrStorage "connection refused"),
                  (UpsertStream (RT := Sample.runtime) Sample.validName Sample.manager 0
                     Sample.storageDown).2)) by (vm_compute; reflexivity).
  assert (H3 : forall row isNew,
            EvUpsert row (inr isNew)
            ∉ added Sample.storageDown
                (UpsertStream (RT := Sample.runtime) Sample.validName Sample.manager 0
                   Sample.storageDown).2).
  { intros row isNew Hin. apply list_elem_of_In in Hin. vm_compute in Hin.
    destruct Hin as [Hin | [Hin | []]]; discriminate Hin. }
  split; [exact H2 |].
  destruct (UpsertStream_persists_first Sample.validName Sample.manager 0 Sample.storageDown
              Sample.bareSpec _ _ H1 H2 H3) as (_ & Ht & _ & Hs & _).
  split; [exact Ht | exact Hs].
Defined.

Lemma UpsertStream_failed_suspend_witness :
  streams Sample.afterFirstUpsert !! "a" = Some 0
  /\ UpsertStream (RT := Sample.runtime) Sample.validName Sample.manager 1 Sample.afterFirstUpsert
     = (Err (ErrStream "context deadline exceeded"), Sample.staleWorld)
  /\ streams Sample.staleWorld = streams Sample.afterFirstUpsert.
Proof.
  assert (H1 : specObjs Sample.afterFirstUpsert !! 1
               = Some (Sample.stream "a" EventStreamStatusStarted)) by (vm_compute; reflexivity).
  assert (H2 : UpsertStream (RT := Sample.runtime) Sample.validName Sample.manager 1
                 Sample.afterFirstUpsert
               = (Err (ErrStream "context deadline exceeded"), Sample.staleWorld))
    by (vm_compute; reflexivity).
  assert (H3 : EvSuspended 0 (Some (ErrStream "context deadline exceeded"))
               ∈ added Sample.afterFirstUpsert Sample.staleWorld).
  { apply list_elem_of_In. vm_compute. do 2 right. left. reflexivity. }
  destruct (UpsertStream_failed_suspend Sample.validName Sample.manager 1 Sample.afterFirstUpsert
              _ _ _ 0 _ H1 H2 H3) as (_ & (id & Hid & _ & Hex) & _ & Hs & _).
  injection Hid as <-.
  split; [exact Hex |]. split; [exact H2 | exact Hs].
Defined.

Lemma UpsertStream_replaces_registered_stream_witness :
  streams (UpsertStream (RT := Sample.runtime) Sample.validName Sample.manager 0
             Sample.bareInput).2 !! "id-00" = Some 0
  /\ UpsertStream (RT := Sample.runtime) Sample.validName Sample.manager 0
       (UpsertStream (RT := Sample.runtime) Sample.validName Sample.manager 0 Sample.bareInput).2
     = (Ok false,
        (UpsertStream (RT := Sample.runtime) Sample.validName Sample.manager 0
           (UpsertStream (RT := Sample.runtime) Sample.validName Sample.manager 0
              Sample.bareInput).2).2)
  /\ EvSuspended 0 None
     ∈ added (UpsertStream (RT := Sample.runtime) Sample.validName Sample.manager 0
                Sample.bareInput).2
         (UpsertStream (RT := Sample.runtime) Sample.validName Sample.manager 0
            (UpsertStream (RT := Sample.runtime) Sample.validName Sample.manager 0
               Sample.bareInput).2).2.
Proof.
  assert (H1 : specObjs (UpsertStream (RT := Sample.runtime) Sample.validName Sample.manager 0
                           Sample.bareInput).2 !! 0
               = Some (setStatus (Some EventStreamStatusStarted)
                         (setID (Some "id-00") Sample.bareSpec)))
    by (vm_compute; reflexivity).
  assert (H2 : streams (UpsertStream (RT := Sample.runtime) Sample.validName Sample.manager 0
                          Sample.bareInput).2 !! "id-00" = Some 0)
    by (vm_compute; reflexivity).
  assert (H3 : UpsertStream (RT := Sample.runtime) Sample.validName Sample.manager 0
                 (UpsertStream (RT := Sample.runtime) Sample.validName Sample.manager 0
                    Sample.bareInput).2
               = (Ok false,
                  (UpsertStream (RT := Sample.runtime) Sample.validName Sample.manager 0
                     (UpsertStream (RT := Sample.runtime) Sample.validName Sample.manager 0
                        Sample.bareInput).2).2)) by (vm_compute; reflexivity).
  split; [exact H2 |]. split; [exact H3 |].
  refine (proj1 (UpsertStream_replaces_registered_stream Sample.validName Sample.manager 0
                   _ _ "id-00" 0 false _ H1 eq_refl _ H2 H3)).
  discriminate.
Defined.

Lemma DeleteStream_outcome_witness :
  streams Sample.twoStreams !! "a" = Some 0
  /\ DeleteStream "a" Sample.twoStreams = (Ok tt, (DeleteStream "a" Sample.twoStreams).2)
  /\ streams (DeleteStream "a" Sample.twoStreams).2 = delete "a" (streams Sample.twoStreams).
Proof.
  assert (H1 : streams Sample.twoStreams !! "a" = Some 0) by (vm_compute; reflexivity).
  assert (H2 : DeleteStream "a" Sample.twoStreams
               = (Ok tt, (DeleteStream "a" Sample.twoStreams).2)) by (vm_compute; reflexivity).
  split; [exact H1 |]. split; [exact H2 |].
  exact (proj1 (proj1 (DeleteStream_outcome "a" Sample.twoStreams 0 _ _ H1 H2) eq_refl)).
Defined.

Lemma ResetStream_failed_update_witness :
  streams Sample.thirdCallFails !! "a" = Some 0
  /\ ResetStream "a" "z" Sample.thirdCallFails
     = (Err (ErrStorage "connection refused"), (ResetStream "a" "z" Sample.thirdCallFails).2)
  /\ esTable (ResetStream "a" "z" Sample.thirdCallFails).2 = esTable Sample.thirdCallFails.
Proof.
  assert (H1 : streams Sample.thirdCallFails !! "a" = Some 0) by (vm_compute; reflexivity).
  assert (H2 : ResetStream "a" "z" Sample.thirdCallFails
               = (Err (ErrStorage "connection refused"),
                  (ResetStream "a" "z" Sample.thirdCallFails).2)) by (vm_compute; reflexivity).
  assert (H3 : EvUpdateSparse (mkSpec (Some "a") None None (Some "z") None None None None None)
                 (Some (ErrStorage "connection refused"))
               ∈ added Sample.thirdCallFails (ResetStream "a" "z" Sample.thirdCallFails).2).
  { apply list_elem_of_In. vm_compute. do 3 right. left. reflexivity. }
  split; [exact H1 |]. split; [exact H2 |].
  exact (proj1 (proj2 (ResetStream_failed_update "a" "z" Sample.thirdCallFails 0 _ _ _ _
                         H1 H2 H3))).
Defined.

Lemma initialize_registers_every_row_witness :
  initialize Sample.thirtyLive = (Ok tt, (initialize Sample.thirtyLive).2)
  /\ forall r, r ∈ esTable Sample.thirtyLive ->
       exists es, streams (initialize Sample.thirtyLive).2 !! GetID r = Some es
         /\ esObjs Sample.thirtyLive !! es = None
         /\ is_Some (esObjs (initialize Sample.thirtyLive).2 !! es).
Proof.
  assert (H1 : Forall (fun r => Status r <> Some EventStreamStatusDeleted)
                 (esTable Sample.thirtyLive))
    by (apply (bool_decide_unpack _); vm_compute; exact I).
  assert (H2 : initialize Sample.thirtyLive = (Ok tt, (initialize Sample.thirtyLive).2))
    by (vm_compute; reflexivity).
  split; [exact H2 |].
  exact (proj1 (proj2 (initialize_registers_every_row Sample.thirtyLive _ H1 H2))).
Defined.

Lemma registry_round_trip_witness :
  addStream 0 Sample.twoStreams = (Ok tt, (addStream 0 Sample.twoStreams).2)
  /\ getStream "a" (addStream 0 Sample.twoStreams).2
     = (Ok (Some 0), (addStream 0 Sample.twoStreams).2).
Proof.
  assert (H1 : addStream 0 Sample.twoStreams = (Ok tt, (addStream 0 Sample.twoStreams).2))
    by (vm_compute; reflexivity).
  split; [exact H1 |].
  destruct (registry_round_trip Sample.twoStreams 0 _ H1) as (e & s & He & Hs & Hget & _).
  assert (Hid : GetID s = "a").
  { assert (He' : esObjs Sample.twoStreams !! 0 = Some (mkStream 0 Starting))
      by (vm_compute; reflexivity).
    pose proof (eq_trans (eq_sym He) He') as [= ->].
    assert (Hs' : specObjs Sample.twoStreams !! 0
                  = Some (Sample.stream "a" EventStreamStatusStarted))
      by (vm_compute; reflexivity).
    cbn in Hs. pose proof (eq_trans (eq_sym Hs) Hs') as [= ->]. reflexivity. }
  rewrite Hid in Hget. exact Hget.
Defined.

Lemma Validate_checks_three_names_witness :
  fftypes.FFI.Validate fftypes.sampleValidateFFNameField fftypes.sampleFFI true = None.
Proof.
  apply (proj1 (Validate_checks_three_names fftypes.sampleValidateFFNameField
                  fftypes.sampleFFI true)).
  split; [vm_compute; reflexivity |]. split; [vm_compute; reflexivity |].
  left. reflexivity.
Defined.
